(** * Cobot: plugin kernel, message orchestrator and pairing gate

    A shallow embedding of the parts of [src/cobot] that the kernel,
    orchestrator and pairing contracts talk about:
    - [cobot/plugins/registry.py]: load order, lifecycle, hook chain;
    - [cobot/agent.py]: [Cobot.handle_message] and [Cobot.respond];
    - [cobot/plugins/pairing/storage.py] and [pairing/plugin.py];
    - [cobot/plugins/compaction/plugin.py].

    Python dictionaries threaded through the hook chain are modelled as
    association lists with Python's dict semantics (insertion keeps
    order, assignment to an existing key replaces in place).  A Python
    [str] is a Rocq [string] with one [ascii] per code point, so the
    strings modelled are those whose code points are below 256. *)

From Stdlib Require Import String Ascii List ZArith Lia Bool.
From Stdlib Require Import Permutation Sorted DecimalString.
Import ListNotations.
Open Scope string_scope.
Open Scope Z_scope.
Open Scope list_scope.

(* ================================================================== *)
(** ** Python values and dictionaries *)

(** Exceptions that the embedded code raises or catches. *)
Inductive exn : Type :=
| LLMError (msg : string)      (** [cobot.plugins.interfaces.LLMError] *)
| OtherError (msg : string).   (** any other [Exception] *)

Set Warnings "-register-all".

Inductive val : Type :=
| VNone
| VBool (b : bool)
| VInt (z : Z)
| VStr (s : string)
| VExn (e : exn)
| VList (l : list val)
| VDict (d : list (string * val)).

(** A Python [dict] with string keys, in insertion order. *)
Definition dict := list (string * val).

Fixpoint dict_get (d : dict) (k : string) : option val :=
  match d with
  | [] => None
  | (k', v) :: d' => if String.eqb k k' then Some v else dict_get d' k
  end.

(** [d.get(k, default)] *)
Definition dict_get_or (d : dict) (k : string) (dflt : val) : val :=
  match dict_get d k with Some v => v | None => dflt end.

(** [d[k] = v]: replace in place, or append a new key at the end. *)
Fixpoint dict_set (d : dict) (k : string) (v : val) : dict :=
  match d with
  | [] => [(k, v)]
  | (k', v') :: d' =>
      if String.eqb k k' then (k', v) :: d' else (k', v') :: dict_set d' k v
  end.

(** Python truthiness ([bool(v)]). *)
Definition truthy (v : val) : bool :=
  match v with
  | VNone => false
  | VBool b => b
  | VInt z => negb (z =? 0)
  | VStr s => negb (String.eqb s "")
  | VExn _ => true
  | VList l => match l with [] => false | _ => true end
  | VDict d => match d with [] => false | _ => true end
  end.

(** [ctx.get("abort")] as tested by [if ctx.get("abort"):] *)
Definition ctx_abort (ctx : dict) : bool := truthy (dict_get_or ctx "abort" VNone).

(* ================================================================== *)
(** ** Plugin registry: hook chain ([PluginRegistry.run_hook]) *)

Definition HOOK_METHODS : list string :=
  [ "on_message_received"; "transform_system_prompt"; "transform_history";
    "on_before_llm_call"; "on_after_llm_call"; "on_before_tool_exec";
    "on_after_tool_exec"; "transform_response"; "on_before_send";
    "on_after_send"; "on_error" ].

Definition in_hook_methods (name : string) : bool :=
  existsb (String.eqb name) HOOK_METHODS.

(** What one awaited hook call [await method(ctx)] does.  The hook
    receives the registry's [ctx] dict by reference, so besides its
    return value we record the state in which it leaves that shared
    dict ([shared]): a hook may assign keys in place before returning
    or raising. *)
Inductive hook_outcome : Type :=
| Returned (shared : dict) (result : option dict)  (** [None]: returned [None] *)
| Raised (shared : dict) (e : exn).

(** One entry of the observable trace: plugin [pid]'s hook [hook] was
    awaited with context [ctx]. *)
Record invocation := Invoke { inv_plugin : string; inv_hook : string; inv_ctx : dict }.

Module Registry.
Section RunHook.

  (** [self._load_order] *)
  Variable load_order : list string.
  (** Whether [plugin_id]'s class overrides [hook_name] (the
      [method.__func__ is getattr(Plugin, hook_name)] test). *)
  Variable overrides : string -> string -> bool.
  (** The body of the overriding hook method. *)
  Variable call_hook : string -> string -> dict -> hook_outcome.

  (** The context of the synthetic [on_error] dispatch. *)
Definition error_ctx (e : exn) (hook_name pid : string) : dict :=
  [("error", VExn e); ("hook", VStr hook_name); ("plugin", VStr pid)].

(** [if result is not None: ctx = result]; otherwise the shared dict. *)
Definition returned_ctx (shared : dict) (result : option dict) : dict :=
  match result with Some r => r | None => shared end.

(** The [for plugin_id in self._load_order] loop of [run_hook];
    [on_exc pid e] is the trace of what the [except] branch runs. *)
Fixpoint run_chain (hook_name : string) (on_exc : string -> exn -> list invocation)
    (order : list string) (ctx : dict) : dict * list invocation :=
  match order with
  | [] => (ctx, [])
  | pid :: rest =>
      if overrides pid hook_name then
        let inv := Invoke pid hook_name ctx in
        match call_hook pid hook_name ctx with
        | Returned shared result =>
            let ctx' := returned_ctx shared result in
            if ctx_abort ctx' then (ctx', [inv])
            else let (c, t) := run_chain hook_name on_exc rest ctx' in (c, inv :: t)
        | Raised shared e =>
            let (c, t) := run_chain hook_name on_exc rest shared in
            (c, inv :: on_exc pid e ++ t)
        end
      else run_chain hook_name on_exc rest ctx
  end.

(** The [except] branch: dispatch [on_error] unless the failing hook
    is [on_error] itself.  The nested [run_hook("on_error", ...)] runs
    with [hook_name = "on_error"], so its own handler dispatches
    nothing. *)
Definition on_exception (hook_name : string) (pid : string) (e : exn) : list invocation :=
  if String.eqb hook_name "on_error" then []
  else snd (run_chain "on_error" (fun _ _ => []) load_order (error_ctx e hook_name pid)).

Definition run_hook (hook_name : string) (ctx : dict) : dict * list invocation :=
  if in_hook_methods hook_name then
    run_chain hook_name (on_exception hook_name) load_order ctx
  else (ctx, []).

End RunHook.
End Registry.

(** The invocations of hook [name] in a trace. *)
Definition hook_calls (name : string) (tr : list invocation) : list invocation :=
  filter (fun i => String.eqb (inv_hook i) name) tr.

(** Plugins that override [name], in load order. *)
Definition overriding (overrides : string -> string -> bool) (name : string)
    (order : list string) : list string :=
  filter (fun p => overrides p name) order.

(* ================================================================== *)
(** ** Concrete plugin sets used by the examples *)

(** A concrete chain: [pairing] aborts, [security] is never reached. *)
Definition ex_overrides (p h : string) : bool :=
  match p with "pairing" | "security" | "logger" => true | _ => false end.

Definition ex_abort_hook (p h : string) (c : dict) : hook_outcome :=
  if String.eqb p "pairing" then Returned (dict_set c "abort" (VBool true)) None
  else Returned c (Some c).

(** [filedrop] assigns [ctx["message"]] in place and then raises; the
    [logger] plugin observes [on_error]. *)
Definition ex_raise_overrides (p h : string) : bool :=
  match p, h with
  | "filedrop", "on_message_received" => true
  | "security", "on_message_received" => true
  | "logger", "on_error" => true
  | _, _ => false
  end.

Definition ex_raise_hook (p h : string) (c : dict) : hook_outcome :=
  if String.eqb p "filedrop" then
    Raised (dict_set c "message" (VStr "rewritten")) (OtherError "boom")
  else Returned c (Some c).

Definition ex_raise_order : list string := ["filedrop"; "logger"; "security"].

Definition ex_ctx0 : dict := [("message", VStr "hi"); ("sender_id", VStr "7")].

(* ================================================================== *)
(** ** Plugin registry: load order and lifecycle *)

(** The fields of [PluginMeta] that the registry reads. *)
Record PluginMeta := {
  meta_id : string;
  meta_priority : Z;
  meta_dependencies : list string
}.

Module Lifecycle.

  (** [sorted(self._plugins.keys(), key=lambda pid: ...meta.priority)].
      [self._plugins] iterates in registration order and Python's
      [sorted] is stable; this insertion sort is stable too: an element
      is placed before the first element of the sorted tail whose
      priority is not smaller, i.e. before later-registered plugins of
      equal priority. *)
Fixpoint insert_by_priority (m : PluginMeta) (l : list PluginMeta) : list PluginMeta :=
  match l with
  | [] => [m]
  | x :: l' =>
      if meta_priority m <=? meta_priority x then m :: l
      else x :: insert_by_priority m l'
  end.

Fixpoint sort_by_priority (l : list PluginMeta) : list PluginMeta :=
  match l with
  | [] => []
  | x :: l' => insert_by_priority x (sort_by_priority l')
  end.

(** [PluginRegistry._resolve_load_order]; [plugins] is [self._plugins]
    in registration order. *)
Definition resolve_load_order (plugins : list PluginMeta) : list string :=
  map meta_id (sort_by_priority plugins).

(** [PluginRegistry._check_dependencies] *)
Definition check_dependencies (plugins : list PluginMeta) : option exn :=
  let ids := map meta_id plugins in
  let missing :=
    flat_map (fun m => map (fun d => (meta_id m, d))
                             (filter (fun d => negb (existsb (String.eqb d) ids))
                                     (meta_dependencies m))) plugins in
  match missing with
  | [] => None
  | (pid, dep) :: _ =>
      Some (OtherError ("Plugin '" ++ pid ++ "' depends on '" ++ dep
                        ++ "' which is not registered")%string)
  end.

(** The loop of [configure_all]: [configure_exc pid] is [None] when
    [plugin.configure(config)] returns normally and [Some t] when it
    raises an exception [e] with [str(e) = t]; the first failure is
    re-raised as [PluginError]. *)
Fixpoint configure_loop (configure_exc : string -> option string) (order : list string)
    : option exn :=
  match order with
  | [] => None
  | pid :: rest =>
      match configure_exc pid with
      | Some t => Some (OtherError ("Configuration failed for '" ++ pid ++ "': " ++ t)%string)
      | None => configure_loop configure_exc rest
      end
  end.

(** [PluginRegistry.configure_all]: the new [self._load_order] and the
    outcome. *)
Definition configure_all (plugins : list PluginMeta) (configure_exc : string -> option string)
    : list string * option exn :=
  let order := resolve_load_order plugins in
  match check_dependencies plugins with
  | Some e => (order, Some e)
  | None => (order, configure_loop configure_exc order)
  end.

(** The lifecycle part of the registry's state. *)
Record state := { started : bool; load_order : list string }.

Inductive event := StartCall (pid : string) | StopCall (pid : string).

(** The loop of [start_all]: [start_exc pid] is [None] when
    [await plugin.start()] returns normally and [Some t] when it raises
    an exception [e] with [str(e) = t]; the first failure is re-raised
    as [PluginError]. *)
Fixpoint start_loop (start_exc : string -> option string) (order : list string)
    : list event * option exn :=
  match order with
  | [] => ([], None)
  | pid :: rest =>
      match start_exc pid with
      | None => let (evs, r) := start_loop start_exc rest in (StartCall pid :: evs, r)
      | Some t =>
          ([StartCall pid], Some (OtherError ("Start failed for '" ++ pid ++ "': " ++ t)%string))
      end
  end.

(** [PluginRegistry.start_all]: [self._started = True] is reached only
    when the loop finished. *)
Definition start_all (start_exc : string -> option string) (st : state)
    : state * list event * option exn :=
  if started st then (st, [], None)
  else
    let (evs, r) := start_loop start_exc (load_order st) in
    match r with
    | None => ({| started := true; load_order := load_order st |}, evs, None)
    | Some e => (st, evs, Some e)
    end.

(** [PluginRegistry.stop_all]: errors raised by [stop] are printed and
    absorbed, so every plugin's [stop] is called. *)
Definition stop_all (st : state) : state * list event :=
  if negb (started st) then (st, [])
  else ({| started := false; load_order := load_order st |},
        map StopCall (rev (load_order st))).

End Lifecycle.

(** Priority comparison and selection used to state the load-order facts. *)
Definition prio_le (a b : PluginMeta) : Prop := meta_priority a <= meta_priority b.

Definition with_priority (p : Z) (m : PluginMeta) : bool := meta_priority m =? p.

Definition ex_plugins : list PluginMeta :=
  [ {| meta_id := "b"; meta_priority := 10; meta_dependencies := [] |};
    {| meta_id := "a"; meta_priority := 10; meta_dependencies := ["c"] |};
    {| meta_id := "c"; meta_priority := 20; meta_dependencies := [] |} ].

(** [telegram]'s [start] raises; the other plugins start. *)
Definition ex_start_exc (pid : string) : option string :=
  if String.eqb pid "telegram" then Some "no bot token" else None.

Definition ex_lifecycle : Lifecycle.state :=
  {| Lifecycle.started := false; Lifecycle.load_order := ["config"; "pairing"; "telegram"] |}.

(* ================================================================== *)
(** ** Message orchestrator: [Cobot.handle_message] *)

(** [IncomingMessage] (the fields [handle_message] reads). *)
Record IncomingMessage := {
  msg_id : string;
  msg_channel_type : string;
  msg_channel_id : string;
  msg_sender_id : string;
  msg_sender_name : string;
  msg_content : string
}.

(** [OutgoingMessage] *)
Record OutgoingMessage := {
  out_channel_type : string;
  out_channel_id : string;
  out_content : val;
  out_reply_to : option string
}.

(** [f"{msg.channel_type}:{msg.channel_id}:{msg.id}"] *)
Definition msg_key (m : IncomingMessage) : string :=
  msg_channel_type m ++ ":" ++ msg_channel_id m ++ ":" ++ msg_id m.

(** Observable effects of [handle_message], in order. *)
Inductive agent_event :=
| ERun (hook : string) (ctx : dict)            (** [await run(hook, ctx)] *)
| ETyping (channel_type channel_id : string)   (** [comm.typing(...)] *)
| ERespond (message : val) (sender : string)   (** [await self.respond(...)] *)
| ESend (out : OutgoingMessage)                (** [comm.send(...)] *)
| ERestart.                                    (** [await self._do_restart()] *)

Module Agent.
Section HandleMessage.

  (** [self._processed_events] is a Python [set].  We keep its elements
      in the order they were inserted into the current set object;
      [set_iter s] is the order in which CPython iterates a set built by
      inserting the keys [s] in this order (hash-table slot order). *)
  Variable set_iter : list string -> list string.

  (** [run(hook, ctx)]: the context the hook chain returns. *)
  Variable run : string -> dict -> dict.
  (** [self.respond(message, sender=...)] *)
  Variable respond : val -> string -> string.
  (** [self._get_comm()] is not [None]; the result of [comm.send]. *)
  Variable comm_present : bool.
  Variable send_ok : OutgoingMessage -> bool.
  (** [tools and tools.restart_requested] *)
  Variable restart_requested : bool.

  (** Step 1 of [handle_message]: the dedup check, [add] and trim;
      [None] when the key was already processed.  This prefix runs
      without any [await]. *)
Definition dedup_step (processed : list string) (key : string) : option (list string) :=
  if existsb (String.eqb key) processed then None
  else
    let s := processed ++ [key] in
    if Nat.ltb 1000 (length s) then Some (skipn 500 (set_iter s)) else Some s.

Definition received_ctx (m : IncomingMessage) : dict :=
  [("message", VStr (msg_content m)); ("sender", VStr (msg_sender_name m));
   ("sender_id", VStr (msg_sender_id m)); ("channel_type", VStr (msg_channel_type m));
   ("channel_id", VStr (msg_channel_id m)); ("event_id", VStr (msg_id m))].

(** The rest of [handle_message], from the [on_message_received] hook
    on; it does not read or write [self._processed_events]. *)
Definition process (m : IncomingMessage) : list agent_event :=
  let ctx0 := received_ctx m in
  let ctx := run "on_message_received" ctx0 in
  if ctx_abort ctx then [ERun "on_message_received" ctx0]
  else
    let typing := if comm_present then [ETyping (msg_channel_type m) (msg_channel_id m)] else [] in
    let message := dict_get_or ctx "message" (VStr (msg_content m)) in
    let response_text := respond message (msg_sender_name m) in
    let ctx1 := [("text", VStr response_text); ("recipient", VStr (msg_sender_name m))] in
    let ctx2 := run "on_before_send" ctx1 in
    let before := ERun "on_message_received" ctx0 :: typing
                  ++ [ERespond message (msg_sender_name m); ERun "on_before_send" ctx1] in
    if ctx_abort ctx2 then before
    else
      let text := dict_get_or ctx2 "text" (VStr response_text) in
      let sent :=
        if comm_present then
          let out := {| out_channel_type := msg_channel_type m;
                        out_channel_id := msg_channel_id m;
                        out_content := text; out_reply_to := Some (msg_id m) |} in
          if send_ok out then
            [ESend out;
             ERun "on_after_send"
               [("text", text); ("recipient", VStr (msg_sender_name m));
                ("channel_type", VStr (msg_channel_type m));
                ("channel_id", VStr (msg_channel_id m))]]
          else [ESend out; ERun "on_error" [("error", VStr "Send failed"); ("hook", VStr "send")]]
        else [] in
      before ++ sent ++ (if restart_requested then [ERestart] else []).

(** [Cobot.handle_message]: the new [_processed_events] and the effects. *)
Definition handle_message (processed : list string) (m : IncomingMessage)
    : list string * list agent_event :=
  match dedup_step processed (msg_key m) with
  | None => (processed, [])
  | Some processed' => (processed', process m)
  end.

(** The messages of one delivery sequence handled one after another
    (the dedup prefix of each task runs before the next task starts). *)
Fixpoint handle_all (processed : list string) (ms : list IncomingMessage)
    : list string * list agent_event :=
  match ms with
  | [] => (processed, [])
  | m :: ms' =>
      let (p1, e1) := handle_message processed m in
      let (p2, e2) := handle_all p1 ms' in
      (p2, e1 ++ e2)
  end.

End HandleMessage.
End Agent.

(** Number of [on_message_received] dispatches for message [m]. *)
Definition received_count (m : IncomingMessage) (evs : list agent_event) : nat :=
  length (filter (fun ev => match ev with
                            | ERun h c => String.eqb h "on_message_received"
                                          && String.eqb (msg_key m)
                                               (match dict_get c "channel_type", dict_get c "channel_id",
                                                      dict_get c "event_id" with
                                                | Some (VStr a), Some (VStr b), Some (VStr c') =>
                                                    a ++ ":" ++ b ++ ":" ++ c'
                                                | _, _, _ => "" end)
                            | _ => false end) evs).

(** Insertion sort by [String.compare]: a concrete iteration order of a
    Python set of strings (CPython iterates in hash-slot order, which is
    unrelated to insertion order; this instance orders lexicographically). *)
Fixpoint str_insert (x : string) (l : list string) : list string :=
  match l with
  | [] => [x]
  | y :: l' => match String.compare x y with Gt => y :: str_insert x l' | _ => x :: l end
  end.

Definition lex_set_iter (l : list string) : list string := fold_right str_insert [] l.

(** The decimal rendering of a message id. *)
Definition nat_str (n : nat) : string := NilZero.string_of_uint (Nat.to_uint n).

Definition tg_msg (n : nat) : IncomingMessage :=
  {| msg_id := nat_str n; msg_channel_type := "telegram"; msg_channel_id := "-100";
     msg_sender_id := "7"; msg_sender_name := "alice"; msg_content := "hi" |}.

(** Collaborators for the examples: no hook plugin, no communication. *)
Definition ex_run (h : string) (c : dict) : dict := c.
Definition ex_respond (m : val) (s : string) : string := "hello".

Definition ex_handle (iter : list string -> list string) :=
  Agent.handle_all iter ex_run ex_respond false (fun _ => true) false.

(** [telegram:-100:0], then [telegram:-100:1] ... [telegram:-100:1000],
    then [telegram:-100:0] again. *)
Definition ex_redelivery : list IncomingMessage :=
  tg_msg 0 :: map tg_msg (seq 1 1000) ++ [tg_msg 0].

(** The keys [telegram:-100:1] ... [telegram:-100:1000] inserted in
    this order. *)
Definition ex_thousand_keys : list string := map (fun n => msg_key (tg_msg n)) (seq 1 1000).

(* ================================================================== *)
(** ** Pairing store ([pairing/storage.py]) *)

Record AuthorizedUser := {
  a_channel : string; a_user_id : string; a_name : string; a_approved_at : Z }.

Record PendingRequest := {
  p_channel : string; p_user_id : string; p_name : string; p_code : string;
  p_requested_at : Z }.

(** [str.upper()] on ASCII letters. *)
Definition ascii_upper (c : ascii) : ascii :=
  let n := nat_of_ascii c in
  if (Nat.leb 97 n && Nat.leb n 122)%bool then ascii_of_nat (n - 32) else c.

Fixpoint str_upper (s : string) : string :=
  match s with
  | EmptyString => EmptyString
  | String c s' => String (ascii_upper c) (str_upper s')
  end.

(** The backing file: its content ([None]: it does not exist) and its
    modification time. *)
Record fs_state := { fs_file : option string; fs_mtime : Z }.

(** A [PairingStorage] object. *)
Record store := {
  st_authorized : list AuthorizedUser;
  st_pending : list PendingRequest;
  st_last_mtime : Z
}.

(** The outcome of a storage method: the object, the file, every state
    the file goes through while the method runs, and the return value. *)
Record mresult (A : Type) := MResult {
  m_store : store; m_fs : fs_state; m_writes : list fs_state; m_ret : A }.
Arguments MResult {A}.
Arguments m_store {A}.
Arguments m_fs {A}.
Arguments m_writes {A}.
Arguments m_ret {A}.

Module Storage.
Section Storage.

  (** [yaml.dump({"authorized": ..., "pending": ...})] *)
  Variable yaml_dump : list AuthorizedUser -> list PendingRequest -> string.
  (** [yaml.safe_load] followed by the record construction; [None] when
      any of it raises. *)
  Variable yaml_load : string -> option (list AuthorizedUser * list PendingRequest).

  (** [_load]: [_last_mtime] is set first, inside the [try]. *)
Definition load (st : store) (fs : fs_state) : store :=
  match fs_file fs with
  | None => st
  | Some txt =>
      match yaml_load txt with
      | Some (a, p) => {| st_authorized := a; st_pending := p; st_last_mtime := fs_mtime fs |}
      | None => {| st_authorized := []; st_pending := []; st_last_mtime := fs_mtime fs |}
      end
  end.

(** [_reload_if_changed] *)
Definition reload_if_changed (st : store) (fs : fs_state) : store :=
  match fs_file fs with
  | None => st
  | Some _ => if st_last_mtime st <? fs_mtime fs then load st fs else st
  end.

(** [_save] at time [now]: [open(self._path, "w")] truncates the file
    in place, then [yaml.dump] writes the new content; [_last_mtime]
    is not touched. *)
Definition save (now : Z) (st : store) : fs_state * list fs_state :=
  let truncated := {| fs_file := Some ""; fs_mtime := now |} in
  let written := {| fs_file := Some (yaml_dump (st_authorized st) (st_pending st));
                    fs_mtime := now |} in
  (written, [truncated; written]).

Definition user_matches (channel user_id : string) (u : AuthorizedUser) : bool :=
  String.eqb (a_channel u) channel && String.eqb (a_user_id u) user_id.

(** [is_authorized] *)
Definition is_authorized (st : store) (fs : fs_state) (channel user_id : string)
    : store * bool :=
  let st' := reload_if_changed st fs in
  (st', existsb (user_matches channel user_id) (st_authorized st')).

Definition get_pending_by_code (st : store) (code : string) : option PendingRequest :=
  find (fun r => String.eqb (p_code r) (str_upper code)) (st_pending st).

Definition get_pending_for_user (st : store) (channel user_id : string)
    : option PendingRequest :=
  find (fun r => String.eqb (p_channel r) channel && String.eqb (p_user_id r) user_id)
       (st_pending st).

Definition unchanged {A} (st : store) (fs : fs_state) (a : A) : mresult A :=
  MResult st fs [] a.

Definition saved {A} (now : Z) (st : store) (a : A) : mresult A :=
  let (fs', ws) := save now st in MResult st fs' ws a.

(** [add_pending]; [code] is the value [generate_code()] returns. *)
Definition add_pending (now : Z) (code : string) (st : store) (fs : fs_state)
    (channel user_id name : string) : mresult PendingRequest :=
  match get_pending_for_user st channel user_id with
  | Some r => unchanged st fs r
  | None =>
      let req := {| p_channel := channel; p_user_id := user_id; p_name := name;
                    p_code := code; p_requested_at := now |} in
      saved now {| st_authorized := st_authorized st; st_pending := st_pending st ++ [req];
                   st_last_mtime := st_last_mtime st |} req
  end.

(** [approve] *)
Definition approve (now : Z) (st : store) (fs : fs_state) (code : string)
    : mresult (option AuthorizedUser) :=
  match get_pending_by_code st code with
  | None => unchanged st fs None
  | Some req =>
      let user := {| a_channel := p_channel req; a_user_id := p_user_id req;
                     a_name := p_name req; a_approved_at := now |} in
      saved now {| st_authorized := st_authorized st ++ [user];
                   st_pending := filter (fun r => negb (String.eqb (p_code r) (p_code req)))
                                        (st_pending st);
                   st_last_mtime := st_last_mtime st |} (Some user)
  end.

(** [reject] *)
Definition reject (now : Z) (st : store) (fs : fs_state) (code : string) : mresult bool :=
  match get_pending_by_code st code with
  | None => unchanged st fs false
  | Some req =>
      saved now {| st_authorized := st_authorized st;
                   st_pending := filter (fun r => negb (String.eqb (p_code r) (p_code req)))
                                        (st_pending st);
                   st_last_mtime := st_last_mtime st |} true
  end.

(** [revoke] *)
Definition revoke (now : Z) (st : store) (fs : fs_state) (channel user_id : string)
    : mresult bool :=
  let kept := filter (fun u => negb (user_matches channel user_id u)) (st_authorized st) in
  if Nat.ltb (length kept) (length (st_authorized st)) then
    saved now {| st_authorized := kept; st_pending := st_pending st;
                 st_last_mtime := st_last_mtime st |} true
  else unchanged {| st_authorized := kept; st_pending := st_pending st;
                    st_last_mtime := st_last_mtime st |} fs false.

(** [add_authorized]: [is_authorized] may reload the file first. *)
Definition add_authorized (now : Z) (st : store) (fs : fs_state)
    (channel user_id name : string) : mresult AuthorizedUser :=
  let (st1, auth) := is_authorized st fs channel user_id in
  match (if auth then find (user_matches channel user_id) (st_authorized st1) else None) with
  | Some u => unchanged st1 fs u
  | None =>
      let user := {| a_channel := channel; a_user_id := user_id;
                     a_name := if String.eqb name "" then "owner:" ++ user_id else name;
                     a_approved_at := now |} in
      saved now {| st_authorized := st_authorized st1 ++ [user];
                   st_pending := st_pending st1; st_last_mtime := st_last_mtime st1 |} user
  end.

End Storage.
End Storage.

(** A stand-in for [yaml.dump]/[yaml.safe_load] in the examples. *)
Definition ex_dump (a : list AuthorizedUser) (p : list PendingRequest) : string :=
  "authorized: " ++ nat_str (length a) ++ ", pending: " ++ nat_str (length p).
Definition ex_load (s : string) : option (list AuthorizedUser * list PendingRequest) :=
  Some ([], []).

(** A fresh [PairingStorage] whose file does not exist yet. *)
Definition ex_store0 : store := {| st_authorized := []; st_pending := []; st_last_mtime := 0 |}.
Definition ex_fs0 : fs_state := {| fs_file := None; fs_mtime := 0 |}.

(** What a storage mutation does to the file and the cache: either it
    leaves the file alone, or the file is truncated in place at time
    [now] and then holds the dump of the new lists, while the cached
    [_last_mtime] keeps the value [cached]. *)
Definition writes_in_place {A} (dump : list AuthorizedUser -> list PendingRequest -> string)
    (now cached : Z) (fs : fs_state) (r : mresult A) : Prop :=
  (m_writes r = [] /\ m_fs r = fs) \/
  (m_writes r = [{| fs_file := Some ""; fs_mtime := now |}; m_fs r] /\
   fs_file (m_fs r) = Some (dump (st_authorized (m_store r)) (st_pending (m_store r))) /\
   fs_mtime (m_fs r) = now /\
   st_last_mtime (m_store r) = cached).

(* ================================================================== *)
(** ** Pairing plugin ([pairing/plugin.py]) *)

(** [str(v)] for the values the hook contexts carry (containers are
    rendered only up to emptiness, which is all the code inspects). *)
Definition py_str (v : val) : string :=
  match v with
  | VNone => "None"
  | VBool b => if b then "True" else "False"
  | VInt z => NilZero.string_of_int (Z.to_int z)
  | VStr s => s
  | VExn (LLMError m) | VExn (OtherError m) => m
  | VList l => match l with [] => "[]" | _ => "[...]" end
  | VDict d => match d with [] => "{}" | _ => "{...}" end
  end.

Definition is_ascii_lower (c : ascii) : bool :=
  let n := nat_of_ascii c in (Nat.leb 97 n && Nat.leb n 122)%bool.
Definition is_ascii_upper (c : ascii) : bool :=
  let n := nat_of_ascii c in (Nat.leb 65 n && Nat.leb n 90)%bool.
Definition ascii_lower (c : ascii) : ascii :=
  if is_ascii_upper c then ascii_of_nat (nat_of_ascii c + 32) else c.

(** [str.title()] on ASCII text: a letter is upper-cased after a
    non-letter and lower-cased after a letter. *)
Fixpoint str_title_from (after_letter : bool) (s : string) : string :=
  match s with
  | EmptyString => EmptyString
  | String c s' =>
      let letter := (is_ascii_lower c || is_ascii_upper c)%bool in
      String (if letter then (if after_letter then ascii_lower c else ascii_upper c) else c)
             (str_title_from letter s')
  end.
Definition str_title (s : string) : string := str_title_from false s.

Definition nl : string := String (ascii_of_nat 10) EmptyString.

Module Pairing.

  (** The attributes of a [PairingPlugin] instance. *)
Record plugin := {
  pp_enabled : bool;
  pp_skip_channels : list string;
  pp_storage : option store;   (** [None] until [start] ran with pairing enabled *)
  pp_comm : bool               (** [self._comm] is set *)
}.

(** The outcome of [on_message_received]. *)
Record result := {
  pr_storage : option store;
  pr_fs : fs_state;
  pr_ctx : dict;
  pr_sent : list OutgoingMessage;
  pr_writes : list fs_state
}.

(** The text of [_send_pairing_message]. *)
Definition pairing_text (channel user_id code : string) : string :=
  "Access not configured." ++ nl ++
  "Your " ++ str_title channel ++ " user id: " ++ user_id ++ nl ++
  "Pairing code: " ++ code ++ nl ++ nl ++
  "Ask the bot owner to approve with:" ++ nl ++
  "  cobot pairing approve " ++ code.

Section Hook.
  Variable yaml_dump : list AuthorizedUser -> list PendingRequest -> string.
  Variable yaml_load : string -> option (list AuthorizedUser * list PendingRequest).

  (** [PairingPlugin.on_message_received] at time [now]; [code] is what
      [generate_code()] returns if a pending request is created.  The
      channel is passed to the store as its [str] (the orchestrator
      always puts a string there). *)
Definition on_message_received (now : Z) (code : string) (pl : plugin) (fs : fs_state)
    (ctx : dict) : result :=
  let same := {| pr_storage := pp_storage pl; pr_fs := fs; pr_ctx := ctx;
                 pr_sent := []; pr_writes := [] |} in
  match pp_storage pl with
  | None => same
  | Some st =>
      if negb (pp_enabled pl) then same else
      let channel := dict_get_or ctx "channel_type" (VStr "") in
      let user_id := py_str (dict_get_or ctx "sender_id" (VStr "")) in
      let user_name := py_str (dict_get_or ctx "sender" (VStr "unknown")) in
      let channel_id := py_str (dict_get_or ctx "channel_id" (VStr "")) in
      if negb (truthy channel) || String.eqb user_id "" then same else
      let ch := py_str channel in
      if (match channel with
          | VStr s => existsb (String.eqb s) (pp_skip_channels pl)
          | _ => false end) then same else
      let (st1, auth) := Storage.is_authorized yaml_load st fs ch user_id in
      if auth then
        {| pr_storage := Some st1; pr_fs := fs; pr_ctx := ctx; pr_sent := []; pr_writes := [] |}
      else
        let r := Storage.add_pending yaml_dump now code st1 fs ch user_id user_name in
        let req := m_ret r in
        let sent :=
          if pp_comm pl then
            [{| out_channel_type := ch; out_channel_id := channel_id;
                out_content := VStr (pairing_text ch user_id (p_code req));
                out_reply_to := None |}]
          else [] in
        {| pr_storage := Some (m_store r); pr_fs := m_fs r;
           pr_ctx := dict_set ctx "abort" (VBool true);
           pr_sent := sent; pr_writes := m_writes r |}
  end.
End Hook.

End Pairing.

Definition ex_pairing : Pairing.plugin :=
  {| Pairing.pp_enabled := true; Pairing.pp_skip_channels := ["nostr"];
     Pairing.pp_storage := Some ex_store0; Pairing.pp_comm := true |}.

(** A message context as [handle_message] builds it, with an empty
    [sender_id]. *)
Definition ex_anon_ctx : dict :=
  [("message", VStr "hi"); ("sender", VStr "eve"); ("sender_id", VStr "");
   ("channel_type", VStr "telegram"); ("channel_id", VStr "-100"); ("event_id", VStr "42")].

(* ================================================================== *)
(** ** [Cobot.respond] *)

(** An entry of [tool_calls]: [{"id": ..., "function": {"name": ..., "arguments": ...}}]. *)
Record tool_call := { tc_id : string; tc_name : string; tc_arguments : val }.

Definition tool_call_val (t : tool_call) : val :=
  VDict [("id", VStr (tc_id t));
         ("function", VDict [("name", VStr (tc_name t)); ("arguments", tc_arguments t)])].

(** [LLMResponse]; [has_tool_calls] is [bool(self.tool_calls)]. *)
Record LLMResponse := {
  r_content : option string; r_tool_calls : list tool_call; r_model : string;
  r_tokens_in : Z; r_tokens_out : Z }.

Definition content_val (r : LLMResponse) : val :=
  match r_content r with Some s => VStr s | None => VNone end.

(** [response.content or ""] *)
Definition content_or_empty (r : LLMResponse) : string :=
  match r_content r with Some s => s | None => "" end.

Definition has_tool_calls (r : LLMResponse) : bool :=
  match r_tool_calls r with [] => false | _ => true end.

(** Effects of [respond], in order. *)
Inductive resp_event :=
| RRun (hook : string) (ctx : dict)     (** [await run(hook, ctx)] *)
| RChat (messages : val)                (** [llm.chat(messages, tools=...)] *)
| RTool (name : string) (args : val).   (** [tools.execute(name, args)] *)

(** Computations that may raise and that record their effects. *)
Definition M (A : Type) : Type := list resp_event -> (exn + A) * list resp_event.

Definition ret {A} (a : A) : M A := fun tr => (inr a, tr).
Definition raise {A} (e : exn) : M A := fun tr => (inl e, tr).
Definition bind {A B} (m : M A) (f : A -> M B) : M B :=
  fun tr => match m tr with
            | (inl e, tr') => (inl e, tr')
            | (inr a, tr') => f a tr'
            end.
Notation "x <- m ;; k" := (bind m (fun x => k)) (at level 61, m at next level, right associativity).

(** [str.strip()] is empty: every character satisfies [str.isspace()].
    Among the code points below 256 these are 9-13, 28-31, 32, 133
    (NEL) and 160 (NO-BREAK SPACE). *)
Definition is_space (c : ascii) : bool :=
  let n := nat_of_ascii c in
  (Nat.leb 9 n && Nat.leb n 13 || Nat.leb 28 n && Nat.leb n 32 ||
   Nat.eqb n 133 || Nat.eqb n 160)%bool.
Fixpoint is_blank (s : string) : bool :=
  match s with EmptyString => true | String c s' => is_space c && is_blank s' end.

(** [messages.append(x)]; anything but a list has no [append]. *)
Definition append_msg (messages x : val) : M val :=
  match messages with
  | VList l => ret (VList (l ++ [x]))
  | _ => raise (OtherError "AttributeError: append")
  end.

Module Respond.
Section Respond.

  (** [run(hook, ctx)]: the registry's [run_hook], which absorbs the
      exceptions of the hooks and so never raises. *)
  Variable run : string -> dict -> dict.
  (** [llm.chat(messages, tools=...)] ([None]: no tool definitions). *)
  Variable chat : val -> option (list val) -> exn + LLMResponse.
  (** [json.loads] *)
  Variable json_loads : string -> exn + val.
  (** [self._get_tools()] is set, and its [execute] and [get_definitions]. *)
  Variable tools_present : bool.
  Variable execute : string -> val -> exn + string.
  Variable tool_defs : list val.
  (** [self._config.provider if self._config else "unknown"] *)
  Variable model_name : val.

Definition run_m (hook : string) (ctx : dict) : M dict :=
  fun tr => (inr (run hook ctx), tr ++ [RRun hook ctx]).

Definition lift {A} (r : exn + A) : M A := fun tr => (r, tr).

Definition chat_m (messages : val) : M LLMResponse :=
  fun tr => (chat messages (match tool_defs with [] => None | _ => Some tool_defs end),
             tr ++ [RChat messages]).

(** One iteration of [for tool_call in response.tool_calls]. *)
Definition tool_step (messages : val) (t : tool_call) : M val :=
  args <- (match tc_arguments t with VStr s => lift (json_loads s) | v => ret v end) ;;
  ctx <- run_m "on_before_tool_exec" [("tool", VStr (tc_name t)); ("args", args)] ;;
  result <- (if ctx_abort ctx then ret (dict_get_or ctx "abort_message" (VStr "Blocked."))
             else if tools_present then
               (fun tr => match execute (tc_name t) args with
                          | inl e => (inl e, tr ++ [RTool (tc_name t) args])
                          | inr s => (inr (VStr s), tr ++ [RTool (tc_name t) args])
                          end)
             else ret (VStr "Error: Tools not available")) ;;
  _ <- run_m "on_after_tool_exec" [("tool", VStr (tc_name t)); ("args", args); ("result", result)] ;;
  append_msg messages (VDict [("role", VStr "tool"); ("tool_call_id", VStr (tc_id t));
                              ("content", result)]).

Fixpoint tool_loop (messages : val) (calls : list tool_call) : M val :=
  match calls with
  | [] => ret messages
  | t :: rest => m' <- tool_step messages t ;; tool_loop m' rest
  end.

(** [for _ in range(max_rounds)]: [inl v] is an early [return v] (an
    aborting [on_before_llm_call]); [inr r] is the last response. *)
Fixpoint rounds (n : nat) (messages : val) (last : option LLMResponse)
    : M (val + LLMResponse) :=
  match n with
  | O => match last with
         | Some r => ret (inr r)
         | None => raise (OtherError "UnboundLocalError: response")
         end
  | S n' =>
      ctx <- run_m "on_before_llm_call"
               [("messages", messages); ("model", model_name); ("tools", VList tool_defs)] ;;
      if ctx_abort ctx then ret (inl (dict_get_or ctx "abort_message" (VStr "Request aborted.")))
      else
        response <- chat_m messages ;;
        _ <- run_m "on_after_llm_call"
               [("response", content_val response); ("model", VStr (r_model response));
                ("tokens_in", VInt (r_tokens_in response));
                ("tokens_out", VInt (r_tokens_out response));
                ("has_tool_calls", VBool (has_tool_calls response))] ;;
        if negb (has_tool_calls response) then ret (inr response)
        else
          m1 <- append_msg messages
                  (VDict [("role", VStr "assistant"); ("content", content_val response);
                          ("tool_calls", VList (map tool_call_val (r_tool_calls response)))]) ;;
          m2 <- tool_loop m1 (r_tool_calls response) ;;
          rounds n' m2 (Some response)
  end.

Definition max_rounds : nat := 10.

(** The body of the [try] block of [respond]. *)
Definition respond_try (messages : val) (sender : string) : M val :=
  r <- rounds max_rounds messages None ;;
  match r with
  | inl v => ret v
  | inr response =>
      ctx <- run_m "transform_response"
               [("text", VStr (content_or_empty response)); ("recipient", VStr sender)] ;;
      match dict_get_or ctx "text" (VStr (content_or_empty response)) with
      | VStr s =>
          if is_blank s then ret (VStr "(No response generated - model may have hit token limit)")
          else ret (VStr s)
      | _ => raise (OtherError "AttributeError: strip")
      end
  end.

(** [except LLMError as e]: dispatch [on_error] and return the text. *)
Definition respond_catch (body : M val) : M val :=
  fun tr => match body tr with
            | (inl (LLMError m), tr') =>
                let ctx := [("error", VExn (LLMError m)); ("hook", VStr "llm_call")] in
                (inr (VStr ("Error: " ++ m)), tr' ++ [RRun "on_error" ctx])
            | other => other
            end.

(** The part of [respond] before the [try]. *)
Definition set_first_content (messages : val) (p : val) : val :=
  match messages with
  | VList (VDict d :: rest) => VList (VDict (dict_set d "content" p) :: rest)
  | _ => messages
  end.

Definition prelude (soul : string) (message : val) (sender : string) : M val :=
  let messages0 := VList [VDict [("role", VStr "system"); ("content", VStr soul)];
                          VDict [("role", VStr "user"); ("content", message)]] in
  ctx1 <- run_m "transform_system_prompt"
            [("prompt", VStr soul); ("peer", VStr sender); ("messages", messages0)] ;;
  let messages1 := set_first_content messages0 (dict_get_or ctx1 "prompt" (VStr soul)) in
  ctx2 <- run_m "transform_history" [("messages", messages1); ("peer", VStr sender)] ;;
  ret (dict_get_or ctx2 "messages" messages1).

(** [Cobot.respond]; [llm_present] is [self._get_llm()] being set. *)
Definition respond (llm_present : bool) (soul : string) (message : val) (sender : string)
    : M val :=
  if negb llm_present then ret (VStr "Error: No LLM configured")
  else messages <- prelude soul message sender ;;
       respond_catch (respond_try messages sender).

End Respond.
End Respond.

(** Examples: a provider that is unreachable, and one that answers. *)
Definition ex_chat_down (m : val) (t : option (list val)) : exn + LLMResponse :=
  inl (LLMError "HTTP 503").
Definition ex_json (s : string) : exn + val := inr (VDict []).
Definition ex_exec (n : string) (a : val) : exn + string := inr "hello".

(* ================================================================== *)
(** ** Compaction ([compaction/plugin.py]) *)

(** A message dict as compaction reads it: [m.get("role")] and
    [m.get("content", "")]. *)
Record chat_msg := { cm_role : option string; cm_content : string }.

Module Compaction.

Definition MAX_TOKENS : nat := 12000.
Definition TARGET_RECENT_TOKENS : nat := 4000.
Definition CHARS_PER_TOKEN : nat := 4.

Definition total_chars (ms : list chat_msg) : nat :=
  fold_right (fun m acc => String.length (cm_content m) + acc)%nat 0%nat ms.

(** [_estimate_tokens] *)
Definition estimate_tokens (ms : list chat_msg) : nat :=
  Nat.div (total_chars ms) CHARS_PER_TOKEN.

(** [len(m.get("content", "")) // CHARS_PER_TOKEN] *)
Definition msg_tokens (m : chat_msg) : nat := Nat.div (String.length (cm_content m)) CHARS_PER_TOKEN.

Definition sum_tokens (ms : list chat_msg) : nat :=
  fold_right (fun m acc => msg_tokens m + acc)%nat 0%nat ms.

(** The backward walk [for i in range(len(history) - 1, -1, -1)] over
    the reversed history: [Some c] when it breaks after accepting [c]
    messages, [None] when it never breaks. *)
Fixpoint walk_back (rl : list chat_msg) (recent : nat) : option nat :=
  match rl with
  | [] => None
  | m :: rest =>
      if Nat.ltb TARGET_RECENT_TOKENS (recent + msg_tokens m) then Some 0%nat
      else option_map S (walk_back rest (recent + msg_tokens m))
  end.

(** [split_index]: [i + 1] at the break, [len(history)] otherwise. *)
Definition split_index (history : list chat_msg) : nat :=
  match walk_back (rev history) 0 with
  | Some c => (length history - c)%nat
  | None => length history
  end.

Definition is_role (r : string) (m : chat_msg) : bool :=
  match cm_role m with Some r' => String.eqb r' r | None => false end.

(** [system_msg], [history], [current_msg] of [transform_history]
    (for a list of at least three messages). *)
Definition parts (messages : list chat_msg)
    : option chat_msg * list chat_msg * option chat_msg :=
  match messages with
  | [] => (None, [], None)
  | first :: tl =>
      let last := List.last messages first in
      let sys := if is_role "system" first then Some first else None in
      let cur := if is_role "user" last then Some last else None in
      match sys, cur with
      | Some s, Some c => (Some s, removelast tl, Some c)
      | Some s, None => (Some s, tl, None)
      | None, Some c => (None, removelast messages, Some c)
      | None, None => (None, messages, None)
      end
  end.

Definition opt_list {A} (o : option A) : list A :=
  match o with Some a => [a] | None => [] end.

Definition summary_msg (summary : string) : chat_msg :=
  {| cm_role := Some "system";
     cm_content := "[Earlier conversation summary: " ++ summary ++ "]" |}.

Section Transform.
  (** [self._summarize(old_messages)]: the LLM's summary, or the
      fallback text. *)
  Variable summarize : list chat_msg -> string.

  (** [CompactionPlugin.transform_history] on [ctx["messages"]]:
      [None] when it returns [ctx] untouched, [Some new] when it sets
      [ctx["messages"] = new]. *)
Definition transform_history (messages : list chat_msg) : option (list chat_msg) :=
  if Nat.ltb (length messages) 3 then None else
  let '(sys, history, cur) := parts messages in
  match history with
  | [] => None
  | _ =>
      if Nat.leb (estimate_tokens history) MAX_TOKENS then None else
      let split := split_index history in
      if Nat.leb split 0 then None else
      let old := firstn split history in
      let recent := skipn split history in
      Some (opt_list sys ++ [summary_msg (summarize old)] ++ recent ++ opt_list cur)
  end.

(** The list the hook leaves in [ctx["messages"]]. *)
Definition result_messages (messages : list chat_msg) : list chat_msg :=
  match transform_history messages with Some m => m | None => messages end.
End Transform.

End Compaction.



Definition ex_summarize (old : list chat_msg) : string :=
  "[Earlier conversation - " ++ nat_str (length old) ++ " messages]".




(* ================================================================== *)
(** ** Plugin registry: registration and capability lookup *)

Module Registration.

(** [self._plugins] (plugin ids in registration order, each with its
    [meta.capabilities]) and [self._capabilities] (capability to plugin
    ids, keys in first-use order). *)
Record reg := {
  r_plugins : list (string * list string);
  r_capabilities : list (string * list string)
}.

(** [PluginRegistry()] *)
Definition empty : reg := {| r_plugins := []; r_capabilities := [] |}.

Fixpoint assoc_get {A} (l : list (string * A)) (k : string) : option A :=
  match l with
  | [] => None
  | (k', v) :: l' => if String.eqb k k' then Some v else assoc_get l' k
  end.

Definition is_registered (r : reg) (pid : string) : bool :=
  existsb (String.eqb pid) (map fst (r_plugins r)).

(** [self._capabilities[cap].append(pid)] on the [defaultdict(list)]. *)
Fixpoint cap_append (caps : list (string * list string)) (cap pid : string)
    : list (string * list string) :=
  match caps with
  | [] => [(cap, [pid])]
  | (c, ids) :: rest =>
      if String.eqb cap c then (c, ids ++ [pid]) :: rest
      else (c, ids) :: cap_append rest cap pid
  end.

(** [PluginRegistry.register] for a [Plugin] subclass with a valid
    [meta]; [init] is the outcome of [plugin_class()]: [None] when it
    returns, [Some msg] when it raises. *)
Definition register (r : reg) (pid : string) (capabilities : list string)
    (init : option string) : exn + reg :=
  if is_registered r pid then
    inl (OtherError ("Plugin '" ++ pid ++ "' already registered"))
  else
    match init with
    | Some msg => inl (OtherError ("Failed to instantiate plugin '" ++ pid ++ "': " ++ msg))
    | None =>
        inr {| r_plugins := r_plugins r ++ [(pid, capabilities)];
               r_capabilities := fold_left (fun cs cap => cap_append cs cap pid)
                                           capabilities (r_capabilities r) |}
    end.

(** [self._capabilities.get(capability, [])] *)
Definition cap_ids (r : reg) (cap : string) : list string :=
  match assoc_get (r_capabilities r) cap with Some ids => ids | None => [] end.

(** [PluginRegistry.get_by_capability], as the id of the plugin it returns. *)
Definition get_by_capability (r : reg) (cap : string) : option string :=
  match cap_ids r cap with
  | [] => None
  | pid :: _ => if is_registered r pid then Some pid else None
  end.

(** [PluginRegistry.all_with_capability], as plugin ids. *)
Definition all_with_capability (r : reg) (cap : string) : list string :=
  filter (is_registered r) (cap_ids r cap).

(** The filter of [load_plugins] in [plugins/__init__.py]: skip a
    disabled plugin, an LLM provider other than the configured one, and,
    when an enabled list is given, a plugin outside it that is not a
    core plugin. *)
Definition selected (provider : string) (enabled disabled : list string)
    (pid : string) (capabilities : list string) : bool :=
  if existsb (String.eqb pid) disabled then false
  else if existsb (String.eqb "llm") capabilities && negb (String.eqb pid provider) then false
  else if (match enabled with [] => false | _ => true end)
          && negb (existsb (String.eqb pid) enabled) then
    existsb (String.eqb pid) ["config"; "logger"; provider]
  else true.

(** The registration loop of [load_plugins]: each discovered class
    [(id, capabilities, outcome of plugin_class())] that passes the
    filter is registered; a [PluginError] is printed and the class
    skipped. *)
Fixpoint register_plugins (provider : string) (enabled disabled : list string) (r : reg)
    (classes : list (string * list string * option string)) : reg :=
  match classes with
  | [] => r
  | (pid, caps, init) :: rest =>
      let r' := if selected provider enabled disabled pid caps then
                  match register r pid caps init with inl _ => r | inr r1 => r1 end
                else r in
      register_plugins provider enabled disabled r' rest
  end.

End Registration.

(** The plugins that declare a capability, one entry per declaration,
    in registration order. *)
Definition declared_by (cap : string) (plugins : list (string * list string)) : list string :=
  flat_map (fun p => map (fun _ => fst p) (filter (String.eqb cap) (snd p))) plugins.

(** Discovered classes for the examples: two LLM providers, a plugin
    that fails to instantiate, and a duplicate id. *)
Definition ex_classes : list (string * list string * option string) :=
  [ ("ppq", ["llm"], None); ("ollama", ["llm"], None); ("config", ["config"], None);
    ("tools", ["tools"], Some "boom"); ("config", ["config"; "extra"], None);
    ("tools", ["tools"], None) ].

(* ================================================================== *)
(** ** Pairing codes ([generate_code]) *)

(** [string.ascii_uppercase + string.digits] *)
Definition upper_and_digits : string := "ABCDEFGHIJKLMNOPQRSTUVWXYZ0123456789".

(** [.replace("O", "").replace("0", "").replace("I", "").replace("1", "")] *)
Definition code_alphabet : list ascii :=
  filter (fun c => negb (existsb (Ascii.eqb c) ["O"; "0"; "I"; "1"]%char))
         (list_ascii_of_string upper_and_digits).

(** [generate_code(length)]: [picks] are the indices [secrets.choice]
    draws, one per character. *)
Definition generate_code (picks : list nat) : string :=
  string_of_list_ascii (map (fun i => nth i code_alphabet "A"%char) picks).

(* ================================================================== *)
(** ** Dedup below capacity *)

(** The messages of a delivery sequence whose key has not been seen
    before (neither in [seen] nor earlier in the sequence). *)
Fixpoint first_deliveries (seen : list string) (ms : list IncomingMessage)
    : list IncomingMessage :=
  match ms with
  | [] => []
  | m :: ms' =>
      if existsb (String.eqb (msg_key m)) seen then first_deliveries seen ms'
      else m :: first_deliveries (seen ++ [msg_key m]) ms'
  end.

(** The messages [comm.send] was called with. *)
Definition sends (evs : list agent_event) : list OutgoingMessage :=
  flat_map (fun ev => match ev with ESend o => [o] | _ => [] end) evs.

(** Whether [respond] was awaited. *)
Definition responded (evs : list agent_event) : bool :=
  existsb (fun ev => match ev with ERespond _ _ => true | _ => false end) evs.

(* ================================================================== *)
(** ** [respond]: counting effects *)

Definition chat_calls (tr : list resp_event) : nat :=
  length (filter (fun e => match e with RChat _ => true | _ => false end) tr).

Definition tool_execs (tr : list resp_event) : nat :=
  length (filter (fun e => match e with RTool _ _ => true | _ => false end) tr).

(** Examples: a provider that always asks for a tool, a hook chain that
    blocks every tool and one that changes nothing. *)
Definition ex_tool_call : tool_call := {| tc_id := "c1"; tc_name := "shell"; tc_arguments := VStr "{}" |}.
Definition ex_chat_tools (m : val) (t : option (list val)) : exn + LLMResponse :=
  inr {| r_content := Some "thinking"; r_tool_calls := [ex_tool_call]; r_model := "m";
         r_tokens_in := 1; r_tokens_out := 1 |}.
Definition ex_block_tools (h : string) (c : dict) : dict :=
  if String.eqb h "on_before_tool_exec" then dict_set c "abort" (VBool true) else c.
(** A provider whose reply is a space, U+001F and U+00A0: blank for [strip()]. *)
Definition ex_chat_blank (m : val) (t : option (list val)) : exn + LLMResponse :=
  inr {| r_content := Some (String " " (String (ascii_of_nat 31) (String (ascii_of_nat 160) EmptyString)));
         r_tool_calls := []; r_model := "m";
         r_tokens_in := 1; r_tokens_out := 1 |}.

(* ================================================================== *)
(** ** Pairing examples *)

(** A pending request and a YAML stand-in that reads back the file the
    pairing plugin writes for it. *)
Definition ex_req : PendingRequest :=
  {| p_channel := "telegram"; p_user_id := "999"; p_name := "eve"; p_code := "ABCDEFGH";
     p_requested_at := 5 |}.
Definition ex_load_req (s : string) : option (list AuthorizedUser * list PendingRequest) :=
  if String.eqb s (ex_dump [] [ex_req]) then Some ([], [ex_req]) else None.
Definition ex_stranger_ctx : dict :=
  [("message", VStr "hi"); ("sender", VStr "eve"); ("sender_id", VStr "999");
   ("channel_type", VStr "telegram"); ("channel_id", VStr "-100"); ("event_id", VStr "42")].
Definition ex_owner : AuthorizedUser :=
  {| a_channel := "telegram"; a_user_id := "999"; a_name := "owner:999"; a_approved_at := 1 |}.

(** Over-budget middle histories for compaction examples: [n] messages
    of 3 characters each, which the per-message estimate counts as 0
    tokens. *)
Definition ex_tiny_history (n : nat) : list chat_msg :=
  repeat {| cm_role := Some "assistant"; cm_content := "abc" |} n.


(* ================================================================== *)
(** ** Registration loop, effects of [respond], compaction examples *)

(** What the registration loop keeps true of the registry. *)
Definition reg_inv (provider : string) (enabled disabled : list string)
    (r : Registration.reg) : Prop :=
  NoDup (map fst (Registration.r_plugins r)) /\
  (forall k, Registration.cap_ids r k = declared_by k (Registration.r_plugins r)) /\
  (forall p, In p (Registration.r_plugins r) ->
     Registration.selected provider enabled disabled (fst p) (snd p) = true).

(** [m] only appends events to the trace, each satisfying [P]. *)
Definition appends (P : resp_event -> Prop) {A} (m : M A) : Prop :=
  forall tr, exists e, snd (m tr) = tr ++ e /\ Forall P e.

Definition not_tool (e : resp_event) : Prop :=
  match e with RTool _ _ => False | _ => True end.

(** A system turn, 16002 turns of 3 characters (48006 characters, 12001
    estimated tokens, but 0 tokens each), and a user turn. *)
Definition ex_tiny_messages : list chat_msg :=
  {| cm_role := Some "system"; cm_content := "s" |} :: ex_tiny_history (4 * 4000 + 2) ++
  [{| cm_role := Some "user"; cm_content := "hi" |}].


(* ================================================================== *)
(** ** Hook chain: lemmas *)

Section RunHookFacts.
  Variable load_order : list string.
  Variable overrides : string -> string -> bool.
  Variable call_hook : string -> string -> dict -> hook_outcome.

  Abbreviation run_chain := (Registry.run_chain overrides call_hook).
  Abbreviation on_exception := (Registry.on_exception load_order overrides call_hook).

Lemma hook_calls_app (name : string) (t1 t2 : list invocation) :
  hook_calls name (t1 ++ t2) = hook_calls name t1 ++ hook_calls name t2.
Proof. unfold hook_calls. apply filter_app. Qed.

Lemma chain_hooks_only (h : string) (on_exc : string -> exn -> list invocation)
    (P : invocation -> Prop) :
  (forall p e, Forall P (on_exc p e)) ->
  (forall p c, P (Invoke p h c)) ->
  forall order c, Forall P (snd (run_chain h on_exc order c)).
Proof.
  intros Hexc Hinv order. induction order as [|p rest IH]; intro c; simpl.
  - constructor.
  - destruct (overrides p h); [|apply IH].
    destruct (call_hook p h c) as [shared r | shared e].
    + destruct (ctx_abort _).
      * simpl. constructor; [apply Hinv | constructor].
      * specialize (IH (Registry.returned_ctx shared r)).
        destruct (run_chain h on_exc rest _) as [c' t]. simpl in *.
        constructor; [apply Hinv | exact IH].
    + specialize (IH shared).
      destruct (run_chain h on_exc rest shared) as [c' t]. simpl in *.
      constructor; [apply Hinv|]. apply Forall_app; split; [apply Hexc | exact IH].
Qed.

(** Everything the [except] branch dispatches is an [on_error] call. *)
Lemma on_exception_only_on_error (name pid : string) (e : exn) :
  Forall (fun i => inv_hook i = "on_error") (on_exception name pid e).
Proof.
  unfold Registry.on_exception. destruct (String.eqb name "on_error"); [constructor|].
  apply chain_hooks_only; [intros; constructor | reflexivity].
Qed.

Lemma hook_calls_on_exception (name pid : string) (e : exn) :
  hook_calls name (on_exception name pid e) = [].
Proof.
  unfold Registry.on_exception. destruct (String.eqb name "on_error") eqn:E; [reflexivity|].
  pose proof (on_exception_only_on_error name pid e) as H.
  unfold Registry.on_exception in H. rewrite E in H.
  induction H as [|i t Hi _ IH]; [reflexivity|].
  unfold hook_calls in *. simpl. rewrite Hi, String.eqb_sym, E. exact IH.
Qed.

Section Chain.
  Variable name : string.
  Variable on_exc : string -> exn -> list invocation.
  Hypothesis on_exc_silent : forall p e, hook_calls name (on_exc p e) = [].

Lemma chain_in_load_order (order : list string) (c : dict) :
  exists k, map inv_plugin (hook_calls name (snd (run_chain name on_exc order c)))
            = firstn k (overriding overrides name order).
Proof.
  revert c. induction order as [|p rest IH]; intro c; simpl.
  - exists 0%nat. reflexivity.
  - unfold overriding in *. simpl. destruct (overrides p name).
    + destruct (call_hook p name c) as [shared r | shared e].
      * destruct (ctx_abort _).
        -- exists 1%nat. unfold hook_calls. simpl.
           rewrite String.eqb_refl. reflexivity.
        -- destruct (IH (Registry.returned_ctx shared r)) as [k Hk].
           destruct (run_chain name on_exc rest _) as [c' t]. simpl in *.
           exists (S k). unfold hook_calls in *. simpl.
           rewrite String.eqb_refl. simpl. f_equal. exact Hk.
      * destruct (IH shared) as [k Hk].
        destruct (run_chain name on_exc rest shared) as [c' t]. simpl in *.
        exists (S k). simpl. rewrite String.eqb_refl.
        fold (hook_calls name (on_exc p e ++ t)). rewrite hook_calls_app, on_exc_silent.
        simpl. f_equal. exact Hk.
    + apply IH.
Qed.

Lemma chain_abort_last (order : list string) (c : dict) :
  forall pre i post shared r,
    hook_calls name (snd (run_chain name on_exc order c)) = pre ++ i :: post ->
    call_hook (inv_plugin i) name (inv_ctx i) = Returned shared r ->
    ctx_abort (Registry.returned_ctx shared r) = true ->
    post = [] /\ fst (run_chain name on_exc order c) = Registry.returned_ctx shared r.
Proof.
  revert c. induction order as [|p rest IH]; intros c pre i post shared r Ht Hcall Hab.
  - simpl in Ht. destruct pre; discriminate.
  - simpl in Ht |- *. destruct (overrides p name); [|eapply IH; eauto].
    destruct (call_hook p name c) as [sh' r' | sh' e] eqn:Ec.
    + destruct (ctx_abort (Registry.returned_ctx sh' r')) eqn:Ea.
      * unfold hook_calls in Ht. simpl in Ht. rewrite String.eqb_refl in Ht.
        destruct pre as [|x pre']; simpl in Ht.
        -- injection Ht as <- <-. simpl in Hcall. rewrite Ec in Hcall.
           injection Hcall as -> ->. split; reflexivity.
        -- injection Ht as _ Ht. destruct pre'; discriminate.
      * specialize (IH (Registry.returned_ctx sh' r')).
        destruct (run_chain name on_exc rest _) as [c' t] eqn:Er. simpl in *.
        unfold hook_calls in Ht. simpl in Ht. rewrite String.eqb_refl in Ht.
        destruct pre as [|x pre']; simpl in Ht.
        -- injection Ht as <- _. simpl in Hcall. rewrite Ec in Hcall.
           injection Hcall as -> ->. congruence.
        -- injection Ht as _ Ht. eapply IH; eauto.
    + specialize (IH sh').
      destruct (run_chain name on_exc rest sh') as [c' t] eqn:Er. simpl in *.
      unfold hook_calls in Ht. simpl in Ht. rewrite String.eqb_refl in Ht.
      fold (hook_calls name (on_exc p e ++ t)) in Ht.
      rewrite hook_calls_app, on_exc_silent in Ht. simpl in Ht.
      destruct pre as [|x pre']; simpl in Ht.
      -- injection Ht as <- _. simpl in Hcall. rewrite Ec in Hcall. discriminate.
      -- injection Ht as _ Ht. eapply IH; eauto.
Qed.
(** The chain only ends early on an abort: either every overriding
    plugin is invoked, or the last invocation returned a context
    carrying [abort]. *)
Lemma chain_complete (order : list string) (c : dict) :
  map inv_plugin (hook_calls name (snd (run_chain name on_exc order c)))
    = overriding overrides name order \/
  exists pre i shared r,
    hook_calls name (snd (run_chain name on_exc order c)) = pre ++ [i] /\
    call_hook (inv_plugin i) name (inv_ctx i) = Returned shared r /\
    ctx_abort (Registry.returned_ctx shared r) = true.
Proof.
  revert c. induction order as [|p rest IH]; intro c; simpl.
  - left. reflexivity.
  - unfold overriding in *. simpl. destruct (overrides p name); [|apply IH].
    destruct (call_hook p name c) as [shared r | shared e] eqn:Ec.
    + destruct (ctx_abort (Registry.returned_ctx shared r)) eqn:Ea.
      * right. exists [], (Invoke p name c), shared, r.
        unfold hook_calls. simpl. rewrite String.eqb_refl. auto.
      * destruct (IH (Registry.returned_ctx shared r)) as [Hall | (pre & i & sh & r' & Ht & Hc & Ha)];
          destruct (run_chain name on_exc rest _) as [c' t]; simpl in *;
          unfold hook_calls in *; simpl; rewrite String.eqb_refl.
        -- left. simpl. f_equal. exact Hall.
        -- right. exists (Invoke p name c :: pre), i, sh, r'. rewrite Ht. auto.
    + assert (Hh : forall t, hook_calls name (Invoke p name c :: on_exc p e ++ t)
                             = Invoke p name c :: hook_calls name t).
      { intro t. unfold hook_calls at 1. simpl. rewrite String.eqb_refl.
        fold (hook_calls name (on_exc p e ++ t)). rewrite hook_calls_app, on_exc_silent.
        reflexivity. }
      destruct (IH shared) as [Hall | (pre & i & sh & r' & Ht & Hc & Ha)];
        destruct (run_chain name on_exc rest shared) as [c' t]; simpl in *; rewrite Hh.
      * left. simpl. f_equal. exact Hall.
      * right. exists (Invoke p name c :: pre), i, sh, r'. rewrite Ht. auto.
Qed.
  End Chain.
End RunHookFacts.

(** Claim C5.  For every name in [HOOK_METHODS] and every context,
    [run_hook] invokes the hook on the overriding plugins in load order:
    the plugins invoked are a prefix of the overriding plugins in load
    order, and either all of them are invoked or the last one invoked
    returned a context carrying [abort] (the returned dict, or the
    shared dict when the hook returns [None]).  Once a hook call returns
    such a context no further plugin is invoked for this hook and that
    context is what [run_hook] returns.  A name outside [HOOK_METHODS]
    invokes nothing and returns the context as given. *)
Theorem run_hook_load_order_abort_stops
    (load_order : list string) (overrides : string -> string -> bool)
    (call_hook : string -> string -> dict -> hook_outcome) (name : string) (ctx : dict) :
  let res := Registry.run_hook load_order overrides call_hook name ctx in
  (exists k, map inv_plugin (hook_calls name (snd res))
             = firstn k (overriding overrides name load_order)) /\
  (in_hook_methods name = true ->
     map inv_plugin (hook_calls name (snd res)) = overriding overrides name load_order \/
     exists pre i shared r,
       hook_calls name (snd res) = pre ++ [i] /\
       call_hook (inv_plugin i) name (inv_ctx i) = Returned shared r /\
       ctx_abort (Registry.returned_ctx shared r) = true) /\
  (in_hook_methods name = false -> res = (ctx, [])) /\
  (forall pre i post shared r,
     hook_calls name (snd res) = pre ++ i :: post ->
     call_hook (inv_plugin i) name (inv_ctx i) = Returned shared r ->
     ctx_abort (Registry.returned_ctx shared r) = true ->
     post = [] /\ fst res = Registry.returned_ctx shared r).
Proof.
  unfold Registry.run_hook. destruct (in_hook_methods name).
  - split; [|split; [|split]].
    + apply chain_in_load_order. apply hook_calls_on_exception.
    + intros _. apply chain_complete. apply hook_calls_on_exception.
    + intro H; discriminate H.
    + intros. eapply chain_abort_last; eauto. apply hook_calls_on_exception.
  - simpl. split; [|split; [|split]].
    + exists 0%nat. reflexivity.
    + intro H; discriminate H.
    + intros _. reflexivity.
    + intros pre i post shared r Ht. destruct pre; discriminate.
Qed.

Lemma run_hook_load_order_abort_stops_witness :
  map inv_plugin (hook_calls "on_message_received"
     (snd (Registry.run_hook ["logger"; "pairing"; "security"] ex_overrides ex_abort_hook
             "on_message_received" [("message", VStr "hi")]))) = ["logger"; "pairing"] /\
  in_hook_methods "on_message_received" = true /\
  (map inv_plugin (hook_calls "on_message_received"
     (snd (Registry.run_hook ["logger"; "pairing"; "security"] ex_overrides ex_abort_hook
             "on_message_received" [("message", VStr "hi")])))
     = overriding ex_overrides "on_message_received" ["logger"; "pairing"; "security"] \/
   exists pre i shared r,
     hook_calls "on_message_received"
       (snd (Registry.run_hook ["logger"; "pairing"; "security"] ex_overrides ex_abort_hook
               "on_message_received" [("message", VStr "hi")])) = pre ++ [i] /\
     ex_abort_hook (inv_plugin i) "on_message_received" (inv_ctx i) = Returned shared r /\
     ctx_abort (Registry.returned_ctx shared r) = true).
Proof.
  split; [vm_compute; reflexivity|]. split; [reflexivity|].
  exact (proj1 (proj2 (run_hook_load_order_abort_stops ["logger"; "pairing"; "security"]
           ex_overrides ex_abort_hook "on_message_received" [("message", VStr "hi")])) eq_refl).
Defined.

(** Claim C6 (counterexample).  [filedrop]'s hook assigns
    [ctx["message"]] in the shared dict and then raises: the chain
    continues, but [security], the next overriding plugin, is invoked
    with the dict as [filedrop] left it, not with the context [filedrop]
    was given. *)
Lemma run_hook_exception_prior_ctx_counterexample :
  snd (Registry.run_hook ex_raise_order ex_raise_overrides ex_raise_hook
         "on_message_received" ex_ctx0)
  = [ Invoke "filedrop" "on_message_received" ex_ctx0;
      Invoke "logger" "on_error"
        (Registry.error_ctx (OtherError "boom") "on_message_received" "filedrop");
      Invoke "security" "on_message_received"
        (dict_set ex_ctx0 "message" (VStr "rewritten")) ] /\
  dict_set ex_ctx0 "message" (VStr "rewritten") <> ex_ctx0.
Proof.
  split; [vm_compute; reflexivity | discriminate].
Qed.

(** Claim C6 (amended).  When an overriding hook raises, the exception
    is caught: unless the hook is [on_error] itself, [run_hook] next
    dispatches [on_error] with context [{error, hook, plugin}] (a
    dispatch that only invokes [on_error] hooks and whose own failures
    dispatch nothing), and then the chain goes on with the next
    overriding plugin in load order, passing the shared context dict in
    the state the failing hook left it (its return value is discarded,
    its in-place assignments are kept).  A failing [on_error] hook
    dispatches nothing. *)
Theorem run_hook_exception_continues
    (load_order : list string) (overrides : string -> string -> bool)
    (call_hook : string -> string -> dict -> hook_outcome)
    (name pid : string) (rest : list string) (c shared : dict) (e : exn) :
  overrides pid name = true ->
  call_hook pid name c = Raised shared e ->
  snd (Registry.run_chain overrides call_hook name
         (Registry.on_exception load_order overrides call_hook name) (pid :: rest) c)
  = Invoke pid name c
    :: Registry.on_exception load_order overrides call_hook name pid e
    ++ snd (Registry.run_chain overrides call_hook name
              (Registry.on_exception load_order overrides call_hook name) rest shared) /\
  (name <> "on_error" ->
   Registry.on_exception load_order overrides call_hook name pid e
   = snd (Registry.run_hook load_order overrides call_hook "on_error"
            (Registry.error_ctx e name pid))) /\
  Forall (fun i => inv_hook i = "on_error")
    (Registry.on_exception load_order overrides call_hook name pid e) /\
  (forall p' e', Registry.on_exception load_order overrides call_hook "on_error" p' e' = []).
Proof.
  intros Hov Hcall. split; [|split; [|split]].
  - simpl. rewrite Hov, Hcall.
    destruct (Registry.run_chain _ _ _ _ rest shared). reflexivity.
  - intro Hne. unfold Registry.on_exception at 1.
    apply String.eqb_neq in Hne. rewrite Hne. reflexivity.
  - apply on_exception_only_on_error.
  - intros. reflexivity.
Qed.

Lemma run_hook_exception_continues_witness :
  ex_raise_overrides "filedrop" "on_message_received" = true /\
  ex_raise_hook "filedrop" "on_message_received" ex_ctx0
    = Raised (dict_set ex_ctx0 "message" (VStr "rewritten")) (OtherError "boom") /\
  snd (Registry.run_chain ex_raise_overrides ex_raise_hook "on_message_received"
         (Registry.on_exception ex_raise_order ex_raise_overrides ex_raise_hook
            "on_message_received") ex_raise_order ex_ctx0)
  = Invoke "filedrop" "on_message_received" ex_ctx0
    :: Registry.on_exception ex_raise_order ex_raise_overrides ex_raise_hook
         "on_message_received" "filedrop" (OtherError "boom")
    ++ snd (Registry.run_chain ex_raise_overrides ex_raise_hook "on_message_received"
              (Registry.on_exception ex_raise_order ex_raise_overrides ex_raise_hook
                 "on_message_received") ["logger"; "security"]
              (dict_set ex_ctx0 "message" (VStr "rewritten"))).
Proof.
  split; [reflexivity|]. split; [reflexivity|].
  exact (proj1 (run_hook_exception_continues ex_raise_order ex_raise_overrides ex_raise_hook
                  "on_message_received" "filedrop" ["logger"; "security"] ex_ctx0
                  (dict_set ex_ctx0 "message" (VStr "rewritten")) (OtherError "boom")
                  eq_refl eq_refl)).
Defined.

(* ================================================================== *)
(** ** Load order: lemmas *)

Section LoadOrderFacts.
  Import Lifecycle.

Lemma insert_by_priority_perm (m : PluginMeta) (l : list PluginMeta) :
  Permutation (m :: l) (insert_by_priority m l).
Proof.
  induction l as [|x l IH]; simpl; [reflexivity|].
  destruct (meta_priority m <=? meta_priority x); [reflexivity|].
  rewrite perm_swap. constructor. exact IH.
Qed.

Lemma sort_by_priority_perm (l : list PluginMeta) : Permutation l (sort_by_priority l).
Proof.
  induction l as [|x l IH]; simpl; [reflexivity|].
  rewrite <- insert_by_priority_perm. constructor. exact IH.
Qed.

Lemma insert_by_priority_hdrel (a m : PluginMeta) (l : list PluginMeta) :
  HdRel prio_le a l -> prio_le a m -> HdRel prio_le a (insert_by_priority m l).
Proof.
  intros Hl Ham. destruct l as [|x l']; simpl.
  - constructor. exact Ham.
  - destruct (meta_priority m <=? meta_priority x); constructor; [exact Ham|].
    inversion Hl; assumption.
Qed.

Lemma insert_by_priority_sorted (m : PluginMeta) (l : list PluginMeta) :
  Sorted prio_le l -> Sorted prio_le (insert_by_priority m l).
Proof.
  induction l as [|x l IH]; intro Hs; simpl.
  - repeat constructor.
  - destruct (meta_priority m <=? meta_priority x) eqn:E.
    + constructor; [exact Hs|]. constructor. unfold prio_le. lia.
    + apply Sorted_inv in Hs as [Hs Hx]. constructor; [apply IH, Hs|].
      apply insert_by_priority_hdrel; [exact Hx|]. unfold prio_le. lia.
Qed.

Lemma sort_by_priority_sorted (l : list PluginMeta) : Sorted prio_le (sort_by_priority l).
Proof.
  induction l as [|x l IH]; simpl; [constructor|]. apply insert_by_priority_sorted, IH.
Qed.

Lemma insert_by_priority_stable (p : Z) (m : PluginMeta) (l : list PluginMeta) :
  filter (with_priority p) (insert_by_priority m l) = filter (with_priority p) (m :: l).
Proof.
  induction l as [|x l IH]; simpl; [reflexivity|].
  destruct (meta_priority m <=? meta_priority x) eqn:E; [reflexivity|].
  simpl. rewrite IH. simpl. unfold with_priority.
  destruct (meta_priority x =? p) eqn:Ex, (meta_priority m =? p) eqn:Em; try reflexivity.
  lia.
Qed.

Lemma sort_by_priority_stable (p : Z) (l : list PluginMeta) :
  filter (with_priority p) (sort_by_priority l) = filter (with_priority p) l.
Proof.
  induction l as [|x l IH]; simpl; [reflexivity|].
  rewrite insert_by_priority_stable. simpl. rewrite IH. reflexivity.
Qed.
End LoadOrderFacts.

(** What [configure_all] does with the load order: it is the list of
    registered plugin ids sorted by priority (lower first), whatever the
    configure calls do; the order is a permutation of the registered
    ids, non-decreasing in priority, and plugins of equal priority keep
    their registration order. *)
Lemma configure_all_load_order_by_priority
    (plugins : list PluginMeta) (configure_exc : string -> option string) :
  fst (Lifecycle.configure_all plugins configure_exc)
    = map meta_id (Lifecycle.sort_by_priority plugins) /\
  Permutation (map meta_id plugins) (fst (Lifecycle.configure_all plugins configure_exc)) /\
  Sorted prio_le (Lifecycle.sort_by_priority plugins) /\
  (forall p, filter (with_priority p) (Lifecycle.sort_by_priority plugins)
             = filter (with_priority p) plugins).
Proof.
  assert (Hfst : fst (Lifecycle.configure_all plugins configure_exc)
                 = map meta_id (Lifecycle.sort_by_priority plugins)).
  { unfold Lifecycle.configure_all.
    destruct (Lifecycle.check_dependencies plugins); reflexivity. }
  split; [exact Hfst|]. split; [|split].
  - rewrite Hfst. apply Permutation_map, sort_by_priority_perm.
  - apply sort_by_priority_sorted.
  - intro p. apply sort_by_priority_stable.
Qed.

(** Claim C3 (code bug).  [_resolve_load_order] is documented as
    resolving the order "based on priority and dependencies" and carries
    "TODO: Topological sort for dependencies"; it only sorts by priority,
    stably.  Three plugins registered in the order [b] (priority 10),
    [a] (priority 10, depends on [c]) and [c] (priority 20), every
    [configure] returning normally: [configure_all] succeeds and sets the
    load order [b; a; c], where [a] precedes its dependency [c].  Two
    plugins [b] and [a] of priority 10 without dependencies, registered
    in this order: the load order is [b; a], not ordered by id. *)
Theorem load_order_ignores_dependencies :
  Lifecycle.configure_all ex_plugins (fun _ => None) = (["b"; "a"; "c"], None) /\
  In {| meta_id := "a"; meta_priority := 10; meta_dependencies := ["c"] |} ex_plugins /\
  In {| meta_id := "c"; meta_priority := 20; meta_dependencies := [] |} ex_plugins /\
  Lifecycle.configure_all
    [ {| meta_id := "b"; meta_priority := 10; meta_dependencies := [] |};
      {| meta_id := "a"; meta_priority := 10; meta_dependencies := [] |} ] (fun _ => None)
  = (["b"; "a"], None) /\
  String.ltb "a" "b" = true.
Proof.
  split; [vm_compute; reflexivity|].
  split; [simpl; auto|]. split; [simpl; auto|].
  split; [vm_compute; reflexivity | reflexivity].
Qed.

(** The loop of [start_all] calls [start] in load order: it either
    starts every plugin, or it stops at the first plugin whose [start]
    raises and re-raises that failure. *)
Lemma start_loop_cases (start_exc : string -> option string) (order : list string) :
  let '(evs, r) := Lifecycle.start_loop start_exc order in
  (r = None /\ evs = map Lifecycle.StartCall order /\
   Forall (fun q => start_exc q = None) order) \/
  (exists pre pid t rest,
     order = pre ++ pid :: rest /\ Forall (fun q => start_exc q = None) pre /\
     start_exc pid = Some t /\
     evs = map Lifecycle.StartCall (pre ++ [pid]) /\
     r = Some (OtherError ("Start failed for '" ++ pid ++ "': " ++ t)%string)).
Proof.
  induction order as [|q order IH]; simpl.
  - left. repeat split; constructor.
  - destruct (start_exc q) as [t|] eqn:Eq.
    + right. exists [], q, t, order. repeat split; auto.
    + destruct (Lifecycle.start_loop start_exc order) as [evs r].
      destruct IH as [(-> & -> & Hall) | (pre & pid & t & rest & -> & Hpre & Hpid & -> & ->)].
      * left. repeat split; auto.
      * right. exists (q :: pre), pid, t, rest. repeat split; auto.
Qed.

(** Claim C4 (counterexample).  Load order [config; pairing; telegram],
    and [telegram]'s [start] raises: [start_all] has started [config]
    and [pairing] and fails; the following [stop_all] stops nothing,
    because the registry was never marked started. *)
Lemma stop_all_after_failed_start_counterexample :
  let '(st1, evs1, r1) := Lifecycle.start_all ex_start_exc ex_lifecycle in
  evs1 = [Lifecycle.StartCall "config"; Lifecycle.StartCall "pairing";
          Lifecycle.StartCall "telegram"] /\
  r1 <> None /\
  snd (Lifecycle.stop_all st1) = [].
Proof.
  vm_compute. split; [reflexivity|]. split; [discriminate | reflexivity].
Qed.

(** Claim C4 (amended).  [start_all] does nothing when the registry is
    marked started and [stop_all] does nothing when it is not.  On an
    unmarked registry, a successful [start_all] calls [start] on every
    plugin in load order and marks the registry started, so a second
    [start_all] is a no-op; [stop_all] on a started registry calls
    [stop] on every plugin in reverse load order (errors absorbed) and
    clears the mark, so a second [stop_all] is a no-op.  A [start_all]
    that fails calls [start] in load order up to the first plugin whose
    [start] raises, re-raises as [PluginError] and leaves the registry
    unmarked: a following [stop_all] stops nothing. *)
Theorem start_stop_all_guards (start_exc : string -> option string) (st : Lifecycle.state) :
  (Lifecycle.started st = true -> Lifecycle.start_all start_exc st = (st, [], None)) /\
  (Lifecycle.started st = false -> Lifecycle.stop_all st = (st, [])) /\
  (Lifecycle.started st = true ->
     Lifecycle.stop_all st
     = ({| Lifecycle.started := false; Lifecycle.load_order := Lifecycle.load_order st |},
        map Lifecycle.StopCall (rev (Lifecycle.load_order st))) /\
     snd (Lifecycle.stop_all (fst (Lifecycle.stop_all st))) = []) /\
  (forall st' evs,
     Lifecycle.started st = false ->
     Lifecycle.start_all start_exc st = (st', evs, None) ->
     evs = map Lifecycle.StartCall (Lifecycle.load_order st) /\
     Lifecycle.started st' = true /\ Lifecycle.load_order st' = Lifecycle.load_order st /\
     Lifecycle.start_all start_exc st' = (st', [], None) /\
     snd (Lifecycle.stop_all st') = map Lifecycle.StopCall (rev (Lifecycle.load_order st))) /\
  (forall st' evs e,
     Lifecycle.started st = false ->
     Lifecycle.start_all start_exc st = (st', evs, Some e) ->
     (exists pre pid t rest,
        Lifecycle.load_order st = pre ++ pid :: rest /\
        Forall (fun q => start_exc q = None) pre /\ start_exc pid = Some t /\
        evs = map Lifecycle.StartCall (pre ++ [pid]) /\
        e = OtherError ("Start failed for '" ++ pid ++ "': " ++ t)%string) /\
     st' = st /\ Lifecycle.stop_all st' = (st', [])).
Proof.
  destruct st as [b order].
  pose proof (start_loop_cases start_exc order) as Hc.
  unfold Lifecycle.start_all, Lifecycle.stop_all; simpl.
  split; [|split; [|split; [|split]]].
  - intros ->. reflexivity.
  - intros ->. reflexivity.
  - intros ->. split; reflexivity.
  - intros st' evs -> H.
    destruct (Lifecycle.start_loop start_exc order) as [evs0 r0].
    destruct r0 as [e|]; [discriminate|].
    injection H as Hst Hev. subst st' evs.
    destruct Hc as [(_ & Hevs & _) | (pre & pid & t & rest & _ & _ & _ & _ & Hr)]; [|discriminate Hr].
    rewrite Hevs. simpl. auto.
  - intros st' evs e -> H.
    destruct (Lifecycle.start_loop start_exc order) as [evs0 r0].
    destruct r0 as [e0|]; [|discriminate].
    injection H as Hst Hev He. subst st' evs e.
    destruct Hc as [(Hr & _) | (pre & pid & t & rest & Ho & Hpre & Hpid & Hevs & Hr)];
      [discriminate Hr|].
    injection Hr as Hr. split; [|simpl; auto].
    exists pre, pid, t, rest. auto.
Qed.

Lemma start_stop_all_guards_witness :
  Lifecycle.start_all ex_start_exc ex_lifecycle
  = (ex_lifecycle, [Lifecycle.StartCall "config"; Lifecycle.StartCall "pairing";
                    Lifecycle.StartCall "telegram"],
     Some (OtherError "Start failed for 'telegram': no bot token")) /\
  Lifecycle.start_all ex_start_exc
    {| Lifecycle.started := false; Lifecycle.load_order := ["config"; "pairing"] |}
  = ({| Lifecycle.started := true; Lifecycle.load_order := ["config"; "pairing"] |},
     [Lifecycle.StartCall "config"; Lifecycle.StartCall "pairing"], None) /\
  (Lifecycle.started {| Lifecycle.started := true; Lifecycle.load_order := ["config"; "pairing"] |}
   = true /\
   Lifecycle.load_order {| Lifecycle.started := true; Lifecycle.load_order := ["config"; "pairing"] |}
   = ["config"; "pairing"]) /\
  ((exists pre pid t rest,
      Lifecycle.load_order ex_lifecycle = pre ++ pid :: rest /\
      Forall (fun q => ex_start_exc q = None) pre /\ ex_start_exc pid = Some t /\
      [Lifecycle.StartCall "config"; Lifecycle.StartCall "pairing";
       Lifecycle.StartCall "telegram"] = map Lifecycle.StartCall (pre ++ [pid]) /\
      OtherError "Start failed for 'telegram': no bot token"
      = OtherError ("Start failed for '" ++ pid ++ "': " ++ t)%string) /\
   ex_lifecycle = ex_lifecycle /\ Lifecycle.stop_all ex_lifecycle = (ex_lifecycle, [])).
Proof.
  assert (E1 : Lifecycle.start_all ex_start_exc ex_lifecycle
               = (ex_lifecycle, [Lifecycle.StartCall "config"; Lifecycle.StartCall "pairing";
                                 Lifecycle.StartCall "telegram"],
                  Some (OtherError "Start failed for 'telegram': no bot token")))
    by (vm_compute; reflexivity).
  assert (E2 : Lifecycle.start_all ex_start_exc
                 {| Lifecycle.started := false; Lifecycle.load_order := ["config"; "pairing"] |}
               = ({| Lifecycle.started := true; Lifecycle.load_order := ["config"; "pairing"] |},
                  [Lifecycle.StartCall "config"; Lifecycle.StartCall "pairing"], None))
    by (vm_compute; reflexivity).
  split; [exact E1|]. split; [exact E2|]. split.
  - destruct (proj1 (proj2 (proj2 (proj2 (start_stop_all_guards ex_start_exc
        {| Lifecycle.started := false; Lifecycle.load_order := ["config"; "pairing"] |}))))
        _ _ eq_refl E2) as (_ & H1 & H2 & _).
    split; [exact H1 | exact H2].
  - exact (proj2 (proj2 (proj2 (proj2 (start_stop_all_guards ex_start_exc ex_lifecycle))))
             ex_lifecycle _ _ eq_refl E1).
Defined.

(* ================================================================== *)
(** ** Dedup set of [handle_message] *)

Lemma in_existsb_eqb (x : string) (l : list string) :
  In x l -> existsb (String.eqb x) l = true.
Proof. intro H. apply existsb_exists. exists x. split; [exact H | apply String.eqb_refl]. Qed.

Lemma existsb_eqb_in (x : string) (l : list string) :
  existsb (String.eqb x) l = true -> In x l.
Proof.
  intro H. apply existsb_exists in H as [y [Hy Heq]].
  apply String.eqb_eq in Heq. subst y. exact Hy.
Qed.

(** Claim C1 (counterexample).  Message [telegram:-100:0] is delivered,
    then 1000 other messages, then [telegram:-100:0] again: the trim at
    1001 keys drops [telegram:-100:0], and the re-delivery runs
    [on_message_received] a second time.  This happens both when the
    set iterates in insertion order and in the lexicographic order. *)
Lemma handle_message_redelivery_counterexample :
  received_count (tg_msg 0) (snd (ex_handle (fun l => l) [] ex_redelivery)) = 2%nat /\
  received_count (tg_msg 0) (snd (ex_handle lex_set_iter [] ex_redelivery)) = 2%nat.
Proof. split; vm_compute; reflexivity. Qed.

(** Claim C1 (amended).  [handle_message] computes the dedup key and,
    when it is already in the processed set, returns at once with the
    set unchanged and no hook run.  Otherwise it adds the key (then trims
    the set when it exceeds 1000 keys) before anything else, and only
    then runs [on_message_received]; the rest of the processing neither
    reads nor writes the set.  A key removed by the trim can be processed
    again. *)
Theorem handle_message_dedup
    (set_iter : list string -> list string) (run : string -> dict -> dict)
    (respond : val -> string -> string) (comm_present : bool)
    (send_ok : OutgoingMessage -> bool) (restart_requested : bool)
    (processed : list string) (m : IncomingMessage) :
  let hm := Agent.handle_message set_iter run respond comm_present send_ok restart_requested in
  (In (msg_key m) processed -> hm processed m = (processed, [])) /\
  (~ In (msg_key m) processed ->
     hm processed m
     = ((if Nat.ltb 1000 (length (processed ++ [msg_key m]))
         then skipn 500 (set_iter (processed ++ [msg_key m]))
         else processed ++ [msg_key m]),
        Agent.process run respond comm_present send_ok restart_requested m) /\
     exists rest, Agent.process run respond comm_present send_ok restart_requested m
                  = ERun "on_message_received" (Agent.received_ctx m) :: rest).
Proof.
  intro hm. subst hm. unfold Agent.handle_message, Agent.dedup_step. split.
  - intro Hin. replace (existsb (String.eqb (msg_key m)) processed) with true; [reflexivity|].
    symmetry. apply existsb_exists. exists (msg_key m). split; [exact Hin | apply String.eqb_refl].
  - intro Hnin. replace (existsb (String.eqb (msg_key m)) processed) with false.
    + split; [destruct (Nat.ltb _ _); reflexivity|].
      unfold Agent.process. destruct (ctx_abort _); [eexists; reflexivity|].
      destruct (ctx_abort _); eexists; reflexivity.
    + symmetry. apply Bool.not_true_iff_false. intro H.
      apply existsb_exists in H as [x [Hx Heq]]. apply String.eqb_eq in Heq. subst x.
      exact (Hnin Hx).
Qed.

Lemma handle_message_dedup_witness :
  ~ In (msg_key (tg_msg 0)) ex_thousand_keys /\
  Agent.handle_message lex_set_iter ex_run ex_respond false (fun _ => true) false
    (ex_thousand_keys ++ [msg_key (tg_msg 0)]) (tg_msg 0)
  = (ex_thousand_keys ++ [msg_key (tg_msg 0)], []) /\
  (~ In (msg_key (tg_msg 0)) ex_thousand_keys ->
   Agent.handle_message lex_set_iter ex_run ex_respond false (fun _ => true) false
     ex_thousand_keys (tg_msg 0)
   = ((if Nat.ltb 1000 (length (ex_thousand_keys ++ [msg_key (tg_msg 0)]))
       then skipn 500 (lex_set_iter (ex_thousand_keys ++ [msg_key (tg_msg 0)]))
       else ex_thousand_keys ++ [msg_key (tg_msg 0)]),
      Agent.process ex_run ex_respond false (fun _ => true) false (tg_msg 0)) /\
   exists rest, Agent.process ex_run ex_respond false (fun _ => true) false (tg_msg 0)
                = ERun "on_message_received" (Agent.received_ctx (tg_msg 0)) :: rest).
Proof.
  assert (Hn : ~ In (msg_key (tg_msg 0)) ex_thousand_keys).
  { intro H. apply in_existsb_eqb in H. vm_compute in H. discriminate. }
  split; [exact Hn|]. split.
  - apply (proj1 (handle_message_dedup lex_set_iter ex_run ex_respond false (fun _ => true) false
                    (ex_thousand_keys ++ [msg_key (tg_msg 0)]) (tg_msg 0))).
    apply in_or_app. right. left. reflexivity.
  - exact (proj2 (handle_message_dedup lex_set_iter ex_run ex_respond false (fun _ => true) false
                    ex_thousand_keys (tg_msg 0))).
Defined.

(** Claim C2 (code bug).  [self._processed_events] holds the keys
    [telegram:-100:1] ... [telegram:-100:1000], inserted in this order,
    and [telegram:-100:0] arrives.  [set(list(s)[500:])] keeps the keys
    after the first 500 in the set's iteration order, not in insertion
    order: with a set that iterates lexicographically, the newest key
    [telegram:-100:0] is discarded while [telegram:-100:9], the ninth
    oldest, is kept.  The set has 501 keys afterwards. *)
Theorem dedup_trim_not_fifo :
  exists s, Agent.dedup_step lex_set_iter ex_thousand_keys (msg_key (tg_msg 0)) = Some s /\
            length s = 501%nat /\
            ~ In (msg_key (tg_msg 0)) s /\
            In (msg_key (tg_msg 9)) s.
Proof.
  eexists. split; [vm_compute; reflexivity|]. split; [vm_compute; reflexivity|]. split.
  - intro H. apply in_existsb_eqb in H. vm_compute in H. discriminate.
  - apply existsb_eqb_in. vm_compute. reflexivity.
Qed.

(* ================================================================== *)
(** ** Pairing store writes *)

(** Claim C7 (counterexample).  A fresh store (no file yet) receives
    [add_pending] at time 5: the file passes through a truncated, empty
    state before the dump is written (no rename-replace), and afterwards
    the file's modification time is 5 while the cached [_last_mtime]
    is still 0. *)
Lemma pairing_save_counterexample :
  let r := Storage.add_pending ex_dump 5 "ABCDEFGH" ex_store0 ex_fs0 "telegram" "999" "eve" in
  In {| fs_file := Some ""; fs_mtime := 5 |} (m_writes r) /\
  fs_mtime (m_fs r) = 5 /\
  st_last_mtime (m_store r) = 0.
Proof. vm_compute. split; [auto|]. split; reflexivity. Qed.

Lemma saved_writes_in_place {A} (dump : list AuthorizedUser -> list PendingRequest -> string)
    (now : Z) (st : store) (fs : fs_state) (a : A) :
  writes_in_place dump now (st_last_mtime st) fs (Storage.saved dump now st a).
Proof. right. unfold Storage.saved, Storage.save. simpl. auto. Qed.

Lemma unchanged_writes_in_place {A} (dump : list AuthorizedUser -> list PendingRequest -> string)
    (now c : Z) (st : store) (fs : fs_state) (a : A) :
  writes_in_place dump now c fs (Storage.unchanged st fs a).
Proof. left. split; reflexivity. Qed.

(** Claim C7 (amended).  Every mutation of the pairing store
    ([add_pending], [approve], [reject], [revoke], [add_authorized])
    either leaves the file alone (nothing to change) or rewrites it in
    place: the file is truncated at the time of the call and then holds
    the dump of the new lists; the write does not refresh the cached
    modification time, which keeps the value it had before the mutation
    (for [add_authorized], after the reload its [is_authorized] check may
    do). *)
Theorem pairing_mutations_write_in_place
    (dump : list AuthorizedUser -> list PendingRequest -> string)
    (load : string -> option (list AuthorizedUser * list PendingRequest))
    (now : Z) (code channel user_id name : string) (st : store) (fs : fs_state) :
  writes_in_place dump now (st_last_mtime st) fs
    (Storage.add_pending dump now code st fs channel user_id name) /\
  writes_in_place dump now (st_last_mtime st) fs (Storage.approve dump now st fs code) /\
  writes_in_place dump now (st_last_mtime st) fs (Storage.reject dump now st fs code) /\
  writes_in_place dump now (st_last_mtime st) fs
    (Storage.revoke dump now st fs channel user_id) /\
  writes_in_place dump now
    (st_last_mtime (fst (Storage.is_authorized load st fs channel user_id))) fs
    (Storage.add_authorized dump load now st fs channel user_id name).
Proof.
  split; [|split; [|split; [|split]]].
  - unfold Storage.add_pending. destruct (Storage.get_pending_for_user _ _ _).
    + apply unchanged_writes_in_place.
    + apply (saved_writes_in_place dump now
               {| st_authorized := _; st_pending := _; st_last_mtime := st_last_mtime st |}).
  - unfold Storage.approve. destruct (Storage.get_pending_by_code _ _).
    + apply (saved_writes_in_place dump now
               {| st_authorized := _; st_pending := _; st_last_mtime := st_last_mtime st |}).
    + apply unchanged_writes_in_place.
  - unfold Storage.reject. destruct (Storage.get_pending_by_code _ _).
    + apply (saved_writes_in_place dump now
               {| st_authorized := _; st_pending := _; st_last_mtime := st_last_mtime st |}).
    + apply unchanged_writes_in_place.
  - unfold Storage.revoke. destruct (Nat.ltb _ _).
    + apply (saved_writes_in_place dump now
               {| st_authorized := _; st_pending := _; st_last_mtime := st_last_mtime st |}).
    + apply unchanged_writes_in_place.
  - unfold Storage.add_authorized.
    destruct (Storage.is_authorized load st fs channel user_id) as [st1 auth]. simpl.
    destruct (if auth then _ else None).
    + apply unchanged_writes_in_place.
    + apply (saved_writes_in_place dump now
               {| st_authorized := _; st_pending := _; st_last_mtime := st_last_mtime st1 |}).
Qed.

(* ================================================================== *)
(** ** Pairing gate *)

(** Claim C10.  When the context's [channel_type] is missing or the
    empty string, or its [sender_id] is missing or the empty string,
    [on_message_received] returns the context unchanged, whether or not
    pairing is enabled: the store is neither consulted nor changed, the
    file is not written, nothing is sent and [abort] is not set. *)
Theorem pairing_skips_anonymous
    (dump : list AuthorizedUser -> list PendingRequest -> string)
    (load : string -> option (list AuthorizedUser * list PendingRequest))
    (now : Z) (code : string) (pl : Pairing.plugin) (fs : fs_state) (ctx : dict) :
  (dict_get ctx "channel_type" = None \/ dict_get ctx "channel_type" = Some (VStr "") \/
   dict_get ctx "sender_id" = None \/ dict_get ctx "sender_id" = Some (VStr "")) ->
  Pairing.on_message_received dump load now code pl fs ctx
  = {| Pairing.pr_storage := Pairing.pp_storage pl; Pairing.pr_fs := fs;
       Pairing.pr_ctx := ctx; Pairing.pr_sent := []; Pairing.pr_writes := [] |}.
Proof.
  intro H. unfold Pairing.on_message_received.
  destruct (Pairing.pp_storage pl) as [st|]; [|reflexivity].
  destruct (Pairing.pp_enabled pl); [|reflexivity]. simpl.
  unfold dict_get_or.
  assert (Hskip : negb (truthy (match dict_get ctx "channel_type" with
                                | Some v => v | None => VStr "" end))
                  || String.eqb (py_str (match dict_get ctx "sender_id" with
                                         | Some v => v | None => VStr "" end)) "" = true).
  { destruct H as [H|[H|[H|H]]]; rewrite H; simpl; auto using orb_true_r. }
  rewrite Hskip. reflexivity.
Qed.

Lemma pairing_skips_anonymous_witness :
  dict_get ex_anon_ctx "sender_id" = Some (VStr "") /\
  Pairing.on_message_received ex_dump ex_load 5 "ABCDEFGH" ex_pairing ex_fs0 ex_anon_ctx
  = {| Pairing.pr_storage := Some ex_store0; Pairing.pr_fs := ex_fs0;
       Pairing.pr_ctx := ex_anon_ctx; Pairing.pr_sent := []; Pairing.pr_writes := [] |}.
Proof.
  split; [reflexivity|].
  exact (pairing_skips_anonymous ex_dump ex_load 5 "ABCDEFGH" ex_pairing ex_fs0 ex_anon_ctx
           (or_intror (or_intror (or_intror eq_refl)))).
Defined.

(* ================================================================== *)
(** ** [respond] and [LLMError] *)

Lemma prelude_returns run soul message sender tr :
  exists v tr', Respond.prelude run soul message sender tr = (inr v, tr').
Proof.
  unfold Respond.prelude, bind, Respond.run_m, ret. simpl. eexists. eexists. reflexivity.
Qed.

(** Claim C8.  When the [try] block of [respond] (the LLM/tool rounds
    and [transform_response]) raises [LLMError] with message [m],
    [respond] dispatches [on_error] with [hook = "llm_call"] and returns
    ["Error: " ++ m]; and [respond] as a whole never raises [LLMError]. *)
Theorem respond_llm_error_caught
    (run : string -> dict -> dict) (chat : val -> option (list val) -> exn + LLMResponse)
    (json_loads : string -> exn + val) (tools_present : bool)
    (execute : string -> val -> exn + string) (tool_defs : list val) (model_name : val) :
  (forall messages sender tr m tr',
     Respond.respond_try run chat json_loads tools_present execute tool_defs model_name
       messages sender tr = (inl (LLMError m), tr') ->
     Respond.respond_catch
       (Respond.respond_try run chat json_loads tools_present execute tool_defs model_name
          messages sender) tr
     = (inr (VStr ("Error: " ++ m)),
        tr' ++ [RRun "on_error" [("error", VExn (LLMError m)); ("hook", VStr "llm_call")]])) /\
  (forall llm_present soul message sender tr m,
     fst (Respond.respond run chat json_loads tools_present execute tool_defs model_name
            llm_present soul message sender tr) <> inl (LLMError m)).
Proof.
  split.
  - intros messages sender tr m tr' H. unfold Respond.respond_catch. rewrite H. reflexivity.
  - intros llm_present soul message sender tr m. unfold Respond.respond.
    destruct llm_present; [|simpl; discriminate].
    simpl. unfold bind at 1.
    destruct (prelude_returns run soul message sender tr) as [v [tr1 Hp]]. rewrite Hp.
    unfold Respond.respond_catch.
    destruct (Respond.respond_try _ _ _ _ _ _ _ v sender tr1) as [[[m'|m']|a] tr2];
      simpl; discriminate.
Qed.

Lemma respond_llm_error_caught_witness :
  Respond.respond_catch
    (Respond.respond_try ex_run ex_chat_down ex_json false ex_exec [] (VStr "ppq")
       (VList [VDict [("role", VStr "user"); ("content", VStr "hi")]]) "alice") []
  = (inr (VStr "Error: HTTP 503"),
     snd (Respond.respond_try ex_run ex_chat_down ex_json false ex_exec [] (VStr "ppq")
            (VList [VDict [("role", VStr "user"); ("content", VStr "hi")]]) "alice" [])
     ++ [RRun "on_error" [("error", VExn (LLMError "HTTP 503")); ("hook", VStr "llm_call")]]).
Proof.
  exact (proj1 (respond_llm_error_caught ex_run ex_chat_down ex_json false ex_exec [] (VStr "ppq"))
           (VList [VDict [("role", VStr "user"); ("content", VStr "hi")]]) "alice" [] "HTTP 503"
           _ eq_refl).
Defined.

(* ================================================================== *)
(** ** Compaction: lemmas *)

Section CompactionFacts.
  Import Compaction.
  Local Open Scope nat_scope.

Lemma total_chars_app (a b : list chat_msg) :
  total_chars (a ++ b) = total_chars a + total_chars b.
Proof. induction a as [|m a IH]; simpl; [reflexivity|]. rewrite IH. lia. Qed.

Lemma sum_tokens_app (a b : list chat_msg) :
  sum_tokens (a ++ b) = sum_tokens a + sum_tokens b.
Proof. induction a as [|m a IH]; simpl; [reflexivity|]. rewrite IH. lia. Qed.

Lemma sum_tokens_rev (a : list chat_msg) : sum_tokens (rev a) = sum_tokens a.
Proof.
  induction a as [|m a IH]; simpl; [reflexivity|].
  rewrite sum_tokens_app, IH. simpl. lia.
Qed.

Lemma total_chars_removelast (l : list chat_msg) :
  total_chars (removelast l) <= total_chars l.
Proof.
  destruct l as [|m l]; [simpl; lia|].
  rewrite (@app_removelast_last _ (m :: l) m) at 2 by discriminate.
  rewrite total_chars_app. lia.
Qed.

Lemma parts_decompose (messages : list chat_msg) sys history cur :
  3 <= length messages ->
  parts messages = (sys, history, cur) ->
  opt_list sys ++ history ++ opt_list cur = messages.
Proof.
  intros Hlen Hp. destruct messages as [|first tl]; [simpl in Hlen; lia|].
  assert (Htl : tl <> []) by (intros ->; simpl in Hlen; lia).
  unfold parts in Hp.
  destruct (is_role "system" first), (is_role "user" (last (first :: tl) first));
    injection Hp as <- <- <-; simpl.
  - f_equal. destruct tl as [|t tl']; [contradiction|].
    symmetry. apply (@app_removelast_last _ (t :: tl') first). discriminate.
  - rewrite app_nil_r. reflexivity.
  - destruct tl as [|t tl']; [contradiction|].
    symmetry. apply (@app_removelast_last _ (first :: t :: tl') first). discriminate.
  - rewrite app_nil_r. reflexivity.
Qed.



Lemma walk_back_bound (rl : list chat_msg) (r c : nat) :
  r <= TARGET_RECENT_TOKENS -> walk_back rl r = Some c ->
  r + sum_tokens (firstn c rl) <= TARGET_RECENT_TOKENS /\ c < length rl.
Proof.
  revert r c. induction rl as [|m rest IH]; intros r c Hr Hw; simpl in Hw; [discriminate|].
  destruct (Nat.ltb TARGET_RECENT_TOKENS (r + msg_tokens m)) eqn:E.
  - injection Hw as <-. simpl. split; lia.
  - apply Nat.ltb_ge in E.
    destruct (walk_back rest (r + msg_tokens m)) as [c'|] eqn:Ew; [|discriminate].
    injection Hw as <-. destruct (IH _ _ E Ew) as [H1 H2]. simpl. split; lia.
Qed.

Lemma recent_tokens_bound (history : list chat_msg) :
  sum_tokens (skipn (split_index history) history) <= TARGET_RECENT_TOKENS /\
  split_index history <= length history /\
  (history <> [] -> 1 <= split_index history).
Proof.
  unfold split_index. destruct (walk_back (rev history) 0) as [c|] eqn:Ew.
  - destruct (walk_back_bound (rev history) 0 c ltac:(unfold TARGET_RECENT_TOKENS; lia) Ew)
      as [H1 H2].
    rewrite length_rev in H2.
    rewrite firstn_rev, sum_tokens_rev in H1. split; [lia|]. split; lia.
  - rewrite skipn_all. simpl. split; [unfold TARGET_RECENT_TOKENS; lia|]. split; [lia|].
    intro Hne. destruct history; [contradiction | simpl; lia].
Qed.
End CompactionFacts.




(* ================================================================== *)
(** ** Further properties of the code *)

Section RegistrationFacts.
Import Registration.

Lemma assoc_get_cap_append (cs : list (string * list string)) (c pid k : string) :
  match assoc_get (cap_append cs c pid) k with Some ids => ids | None => [] end
  = match assoc_get cs k with Some ids => ids | None => [] end
    ++ (if String.eqb k c then [pid] else []).
Proof.
  induction cs as [|[c' ids] cs IH]; simpl.
  - destruct (String.eqb k c); reflexivity.
  - destruct (String.eqb c c') eqn:E1.
    + apply String.eqb_eq in E1. subst c'. simpl.
      destruct (String.eqb k c); [reflexivity|]. rewrite app_nil_r. reflexivity.
    + simpl. destruct (String.eqb k c') eqn:E2; [|exact IH].
      apply String.eqb_eq in E2. subst c'.
      rewrite String.eqb_sym, E1. rewrite app_nil_r. reflexivity.
Qed.

Lemma assoc_get_fold_cap_append (caps : list string) (cs : list (string * list string))
    (pid k : string) :
  match assoc_get (fold_left (fun cs cap => cap_append cs cap pid) caps cs) k with
  | Some ids => ids | None => [] end
  = match assoc_get cs k with Some ids => ids | None => [] end
    ++ map (fun _ => pid) (filter (String.eqb k) caps).
Proof.
  revert cs. induction caps as [|c caps IH]; intro cs; simpl.
  - rewrite app_nil_r. reflexivity.
  - rewrite IH, assoc_get_cap_append, <- app_assoc.
    destruct (String.eqb k c); reflexivity.
Qed.

Lemma declared_by_app (cap : string) (a b : list (string * list string)) :
  declared_by cap (a ++ b) = declared_by cap a ++ declared_by cap b.
Proof. unfold declared_by. apply flat_map_app. Qed.

Lemma declared_by_in (cap pid : string) (ps : list (string * list string)) :
  In pid (declared_by cap ps) -> exists caps, In (pid, caps) ps /\ In cap caps.
Proof.
  unfold declared_by. intro H. apply in_flat_map in H as [[p caps] [Hin Hp]].
  simpl in Hp. apply in_map_iff in Hp as [c [<- Hc]].
  apply filter_In in Hc as [Hc Heq]. apply String.eqb_eq in Heq. subst c.
  exists caps. split; assumption.
Qed.

Lemma is_registered_in (r : reg) (pid : string) :
  is_registered r pid = true <-> In pid (map fst (r_plugins r)).
Proof.
  unfold is_registered. rewrite existsb_exists. split.
  - intros [x [Hx Heq]]. apply String.eqb_eq in Heq. subst. exact Hx.
  - intro H. exists pid. split; [exact H | apply String.eqb_refl].
Qed.

Lemma register_inv (provider : string) (enabled disabled : list string) (r r1 : reg)
    (pid : string) (caps : list string) (init : option string) :
  reg_inv provider enabled disabled r ->
  selected provider enabled disabled pid caps = true ->
  register r pid caps init = inr r1 ->
  reg_inv provider enabled disabled r1.
Proof.
  intros [Hnd [Hcap Hsel]] Hs Hreg. unfold register in Hreg.
  destruct (is_registered r pid) eqn:Er; [discriminate|].
  destruct init; [discriminate|]. injection Hreg as <-.
  split; [|split].
  - simpl. rewrite map_app. simpl. apply NoDup_app; [exact Hnd | constructor; [intro H; inversion H | constructor] |].
    intros x Hx Hx'. destruct Hx' as [<-|[]].
    assert (is_registered r pid = true) by (apply is_registered_in; exact Hx). congruence.
  - intro k. unfold cap_ids. simpl. rewrite assoc_get_fold_cap_append.
    fold (cap_ids r k). rewrite Hcap, declared_by_app. unfold declared_by at 3. simpl.
    rewrite app_nil_r. reflexivity.
  - intros p Hp. simpl in Hp. apply in_app_or in Hp as [Hp|[<-|[]]]; [apply Hsel, Hp | exact Hs].
Qed.

Lemma register_plugins_inv (provider : string) (enabled disabled : list string)
    (classes : list (string * list string * option string)) (r : reg) :
  reg_inv provider enabled disabled r ->
  reg_inv provider enabled disabled (register_plugins provider enabled disabled r classes).
Proof.
  revert r. induction classes as [|[[pid caps] init] rest IH]; intros r Hr; simpl; [exact Hr|].
  apply IH. destruct (selected provider enabled disabled pid caps) eqn:Es; [|exact Hr].
  destruct (register r pid caps init) as [e|r1] eqn:Ereg; [exact Hr|].
  exact (register_inv provider enabled disabled r r1 pid caps init Hr Es Ereg).
Qed.

Lemma filter_all_true {A} (f : A -> bool) (l : list A) :
  (forall x, In x l -> f x = true) -> filter f l = l.
Proof.
  induction l as [|x l IH]; intro H; simpl; [reflexivity|].
  rewrite (H x (or_introl eq_refl)), IH; [reflexivity|]. intros y Hy. apply H. right. exact Hy.
Qed.

Lemma selected_llm (provider : string) (enabled disabled : list string) (pid : string)
    (caps : list string) :
  selected provider enabled disabled pid caps = true -> In "llm" caps -> pid = provider.
Proof.
  unfold selected. intros Hs Hin.
  destruct (existsb (String.eqb pid) disabled); [discriminate|].
  assert (Hl : existsb (String.eqb "llm") caps = true).
  { apply existsb_exists. exists "llm". split; [exact Hin | reflexivity]. }
  rewrite Hl in Hs. simpl in Hs.
  destruct (String.eqb pid provider) eqn:E; [apply String.eqb_eq, E | discriminate].
Qed.
End RegistrationFacts.

(** X1: after the registration loop of [init_plugins] (over
    [PluginRegistry.register]), plugin ids are unique; [all_with_capability]
    returns the registered plugins that declare the capability, in
    registration order, and [get_by_capability] the first of them; the
    only plugin with the "llm" capability that can be registered is the
    configured provider. *)
Theorem register_plugins_capabilities (provider : string) (enabled disabled : list string)
    (classes : list (string * list string * option string)) :
  let r := Registration.register_plugins provider enabled disabled Registration.empty classes in
  NoDup (map fst (Registration.r_plugins r)) /\
  (forall cap,
     Registration.all_with_capability r cap = declared_by cap (Registration.r_plugins r) /\
     Registration.get_by_capability r cap = hd_error (declared_by cap (Registration.r_plugins r))) /\
  (forall pid, In pid (Registration.all_with_capability r "llm") -> pid = provider).
Proof.
  intro r.
  assert (Hinv : reg_inv provider enabled disabled r).
  { apply register_plugins_inv. split; [constructor|]. split; [reflexivity | intros p []]. }
  destruct Hinv as [Hnd [Hcap Hsel]].
  assert (Hall : forall cap, Registration.all_with_capability r cap
                             = declared_by cap (Registration.r_plugins r)).
  { intro cap. unfold Registration.all_with_capability. rewrite Hcap.
    apply filter_all_true. intros pid Hpid.
    apply declared_by_in in Hpid as [caps [Hp _]].
    apply is_registered_in. apply in_map_iff. exists (pid, caps). split; [reflexivity | exact Hp]. }
  split; [exact Hnd|]. split.
  - intro cap. split; [apply Hall|].
    unfold Registration.get_by_capability. rewrite Hcap.
    destruct (declared_by cap (Registration.r_plugins r)) as [|pid rest] eqn:Ed; [reflexivity|].
    assert (Hpid : In pid (declared_by cap (Registration.r_plugins r))) by (rewrite Ed; left; reflexivity).
    apply declared_by_in in Hpid as [caps [Hp _]].
    replace (Registration.is_registered r pid) with true; [reflexivity|].
    symmetry. apply is_registered_in. apply in_map_iff. exists (pid, caps). split; [reflexivity | exact Hp].
  - intros pid Hpid. rewrite Hall in Hpid.
    apply declared_by_in in Hpid as [caps [Hp Hllm]].
    exact (selected_llm provider enabled disabled pid caps (Hsel _ Hp) Hllm).
Qed.

Lemma flat_map_nil_iff {A B} (f : A -> list B) (l : list A) :
  flat_map f l = [] <-> (forall x, In x l -> f x = []).
Proof.
  induction l as [|x l IH]; simpl; [split; [intros _ y []| reflexivity]|].
  split.
  - intros Happ. apply app_eq_nil in Happ as [H1 H2]. rewrite IH in H2.
    intros y [<-|Hy]; [exact H1 | exact (H2 y Hy)].
  - intro H. rewrite (H x (or_introl eq_refl)). apply IH.
    intros y Hy. apply H. right. exact Hy.
Qed.

Lemma filter_nil_iff {A} (f : A -> bool) (l : list A) :
  filter f l = [] <-> (forall x, In x l -> f x = false).
Proof.
  induction l as [|x l IH]; simpl; [split; [intros _ y []| reflexivity]|].
  destruct (f x) eqn:E; split.
  - discriminate.
  - intro H. rewrite (H x (or_introl eq_refl)) in E. discriminate.
  - intros H y [<-|Hy]; [exact E | apply IH; assumption].
  - intro H. apply IH. intros y Hy. apply H. right. exact Hy.
Qed.

(** X2: [_check_dependencies] passes exactly when every dependency
    of every registered plugin is itself registered. *)
Theorem check_dependencies_none_iff (plugins : list PluginMeta) :
  Lifecycle.check_dependencies plugins = None <->
  (forall m d, In m plugins -> In d (meta_dependencies m) -> In d (map meta_id plugins)).
Proof.
  unfold Lifecycle.check_dependencies.
  set (missing := flat_map _ plugins).
  transitivity (missing = []).
  { destruct missing as [|[pid dep] rest]; split; congruence. }
  unfold missing. rewrite flat_map_nil_iff. split.
  - intros H m d Hm Hd. specialize (H m Hm).
    destruct (map (fun d => (meta_id m, d)) _) eqn:E in H; [|discriminate].
    apply map_eq_nil in E. rewrite filter_nil_iff in E. specialize (E d Hd).
    apply negb_false_iff, existsb_exists in E as [x [Hx Heq]].
    apply String.eqb_eq in Heq. subst. exact Hx.
  - intros H m Hm.
    enough (E : filter (fun d => negb (existsb (String.eqb d) (map meta_id plugins)))
                       (meta_dependencies m) = []) by (rewrite E; reflexivity).
    apply filter_nil_iff. intros d Hd. apply negb_false_iff, existsb_exists.
    exists d. split; [exact (H m d Hm Hd) | apply String.eqb_refl].
Qed.

Lemma existsb_eqb_false_not_in (k : string) (l : list string) :
  existsb (String.eqb k) l = false -> ~ In k l.
Proof.
  intros H Hin. assert (existsb (String.eqb k) l = true).
  { apply existsb_exists. exists k. split; [exact Hin | apply String.eqb_refl]. }
  congruence.
Qed.

Section DedupFacts.
Variable set_iter : list string -> list string.
Variable run : string -> dict -> dict.
Variable respond : val -> string -> string.
Variable comm_present : bool.
Variable send_ok : OutgoingMessage -> bool.
Variable restart_requested : bool.

Lemma dedup_step_invariant (processed processed' : list string) (key : string) :
  (forall l, Permutation (set_iter l) l) ->
  NoDup processed -> (length processed <= 1000)%nat ->
  Agent.dedup_step set_iter processed key = Some processed' ->
  NoDup processed' /\ (length processed' <= 1000)%nat.
Proof.
  intros Hperm Hnd Hlen Hstep. unfold Agent.dedup_step in Hstep.
  destruct (existsb (String.eqb key) processed) eqn:Ein; [discriminate|].
  apply existsb_eqb_false_not_in in Ein.
  assert (Hnd' : NoDup (processed ++ [key])).
  { apply NoDup_app; [exact Hnd | repeat constructor; intros [] |].
    intros x Hx [<-|[]]. contradiction. }
  destruct (Nat.ltb 1000 (length (processed ++ [key]))) eqn:Elt.
  - assert (E : processed' = skipn 500 (set_iter (processed ++ [key]))) by congruence.
    subst processed'.
    assert (Hi : NoDup (set_iter (processed ++ [key])))
      by (apply (Permutation_NoDup (Permutation_sym (Hperm _))), Hnd').
    split.
    + rewrite <- (firstn_skipn 500 (set_iter (processed ++ [key]))) in Hi.
      apply NoDup_app_remove_l in Hi. exact Hi.
    + rewrite length_skipn, (Permutation_length (Hperm _)), length_app. simpl. lia.
  - assert (E : processed' = processed ++ [key]) by congruence. subst processed'.
    apply Nat.ltb_ge in Elt. split; assumption.
Qed.

Lemma handle_all_invariant (processed : list string) (ms : list IncomingMessage) :
  (forall l, Permutation (set_iter l) l) ->
  NoDup processed -> (length processed <= 1000)%nat ->
  let p' := fst (Agent.handle_all set_iter run respond comm_present send_ok restart_requested
                   processed ms) in
  NoDup p' /\ (length p' <= 1000)%nat.
Proof.
  intro Hperm. revert processed. induction ms as [|m ms IH]; intros processed Hnd Hlen; simpl.
  - split; assumption.
  - unfold Agent.handle_message.
    destruct (Agent.dedup_step set_iter processed (msg_key m)) as [p1|] eqn:Estep.
    + destruct (dedup_step_invariant processed p1 (msg_key m) Hperm Hnd Hlen Estep) as [H1 H2].
      specialize (IH p1 H1 H2).
      destruct (Agent.handle_all _ _ _ _ _ _ p1 ms) as [p2 e2]. exact IH.
    + specialize (IH processed Hnd Hlen).
      destruct (Agent.handle_all _ _ _ _ _ _ processed ms) as [p2 e2]. exact IH.
Qed.
End DedupFacts.

(** X3: with a set iteration order that is a permutation,
    [_processed_events] never holds a key twice and never more than 1000
    keys after any sequence of [handle_message] calls that starts from
    such a set. *)
Theorem processed_events_bounded
    (set_iter : list string -> list string) (run : string -> dict -> dict)
    (respond : val -> string -> string) (comm_present : bool)
    (send_ok : OutgoingMessage -> bool) (restart_requested : bool)
    (processed : list string) (ms : list IncomingMessage) :
  (forall l, Permutation (set_iter l) l) ->
  NoDup processed -> (length processed <= 1000)%nat ->
  let p' := fst (Agent.handle_all set_iter run respond comm_present send_ok restart_requested
                   processed ms) in
  NoDup p' /\ (length p' <= 1000)%nat.
Proof. apply handle_all_invariant. Qed.

Lemma processed_events_bounded_witness :
  let p' := fst (Agent.handle_all (fun l => l) ex_run ex_respond true (fun _ => true) false
                   ["x"; "y"] ex_redelivery) in
  NoDup p' /\ (length p' <= 1000)%nat.
Proof.
  apply (processed_events_bounded (fun l => l) ex_run ex_respond true (fun _ => true) false
           ["x"; "y"] ex_redelivery).
  - intro l. apply Permutation_refl.
  - repeat constructor; simpl; intuition discriminate.
  - simpl. lia.
Defined.

(** X4: below capacity the dedup is exact: while the set plus the
    delivered messages stay within 1000 keys, [handle_message] processes
    each key once, at its first delivery, and the set ends up holding the
    previously seen keys followed by the new keys in delivery order. *)
Theorem handle_all_below_capacity
    (set_iter : list string -> list string) (run : string -> dict -> dict)
    (respond : val -> string -> string) (comm_present : bool)
    (send_ok : OutgoingMessage -> bool) (restart_requested : bool)
    (processed : list string) (ms : list IncomingMessage) :
  (length processed + length ms <= 1000)%nat ->
  Agent.handle_all set_iter run respond comm_present send_ok restart_requested processed ms =
  (processed ++ map msg_key (first_deliveries processed ms),
   flat_map (Agent.process run respond comm_present send_ok restart_requested)
            (first_deliveries processed ms)).
Proof.
  revert processed. induction ms as [|m ms IH]; intros processed Hlen; simpl in *.
  - rewrite app_nil_r. reflexivity.
  - unfold Agent.handle_message, Agent.dedup_step.
    destruct (existsb (String.eqb (msg_key m)) processed) eqn:Ein.
    + rewrite IH by lia. reflexivity.
    + replace (Nat.ltb 1000 (length (processed ++ [msg_key m]))) with false
        by (symmetry; apply Nat.ltb_ge; rewrite length_app; simpl; lia).
      rewrite IH by (rewrite length_app; simpl; lia).
      simpl. rewrite <- app_assoc. reflexivity.
Qed.


Lemma handle_all_below_capacity_witness :
  (length ["x"] + length [tg_msg 0; tg_msg 1; tg_msg 0] <= 1000)%nat /\
  Agent.handle_all (fun l => l) ex_run ex_respond true (fun _ => true) false ["x"] [tg_msg 0; tg_msg 1; tg_msg 0] =
  (["x"] ++ map msg_key (first_deliveries ["x"] [tg_msg 0; tg_msg 1; tg_msg 0]),
   flat_map (Agent.process ex_run ex_respond true (fun _ => true) false)
            (first_deliveries ["x"] [tg_msg 0; tg_msg 1; tg_msg 0])).
Proof.
  split.
  - simpl. lia.
  - apply handle_all_below_capacity. simpl. lia.
Defined.

(** X5: one handled message sends at most one reply, to the
    message's own channel and chat, as a reply to the message's id; it
    sends nothing without a communication plugin, and when
    [on_message_received] aborts it sends nothing and does not call
    [respond]. *)
Theorem process_sends_reply
    (run : string -> dict -> dict) (respond : val -> string -> string) (comm_present : bool)
    (send_ok : OutgoingMessage -> bool) (restart_requested : bool) (m : IncomingMessage) :
  let evs := Agent.process run respond comm_present send_ok restart_requested m in
  (length (sends evs) <= 1)%nat /\
  (forall o, In o (sends evs) ->
     out_channel_type o = msg_channel_type m /\ out_channel_id o = msg_channel_id m /\
     out_reply_to o = Some (msg_id m)) /\
  (comm_present = false -> sends evs = []) /\
  (ctx_abort (run "on_message_received" (Agent.received_ctx m)) = true ->
     sends evs = [] /\ responded evs = false).
Proof.
  intro evs. subst evs. unfold Agent.process.
  destruct (ctx_abort (run "on_message_received" (Agent.received_ctx m))) eqn:Ea;
    destruct comm_present, restart_requested;
    repeat match goal with
           | |- context [ctx_abort (run "on_before_send" ?c)] =>
               destruct (ctx_abort (run "on_before_send" c))
           | |- context [send_ok ?o] => destruct (send_ok o)
           end;
    unfold sends, responded; simpl; rewrite ?flat_map_app; simpl;
    repeat split; try lia; try reflexivity; try (intro H; discriminate H);
    repeat match goal with H : _ \/ _ |- _ => destruct H as [<-|H] | H : False |- _ => destruct H | H : In _ [] |- _ => destruct H end; reflexivity.
Qed.

Section EffectCounts.
Variable cnt : list resp_event -> nat.

Lemma ret_bound {A} (a : A) (k : nat) tr : (cnt (snd (ret a tr)) <= cnt tr + k)%nat.
Proof. unfold ret. simpl. lia. Qed.

Lemma raise_bound {A} (e : exn) (k : nat) tr : (cnt (snd (@raise A e tr)) <= cnt tr + k)%nat.
Proof. unfold raise. simpl. lia. Qed.

Lemma bind_bound {A B} (m : M A) (f : A -> M B) (k j : nat) :
  (forall tr, cnt (snd (m tr)) <= cnt tr + k)%nat ->
  (forall a tr, cnt (snd (f a tr)) <= cnt tr + j)%nat ->
  forall tr, (cnt (snd (bind m f tr)) <= cnt tr + (k + j))%nat.
Proof.
  intros Hm Hf tr. unfold bind. specialize (Hm tr).
  destruct (m tr) as [[e|a] tr']; simpl in *; [lia|]. specialize (Hf a tr'). lia.
Qed.

Lemma append_msg_bound (messages x : val) (k : nat) tr :
  (cnt (snd (append_msg messages x tr)) <= cnt tr + k)%nat.
Proof. unfold append_msg, ret, raise. destruct messages; simpl; lia. Qed.

Lemma lift_bound {A} (r : exn + A) (k : nat) tr :
  (cnt (snd (Respond.lift r tr)) <= cnt tr + k)%nat.
Proof. unfold Respond.lift. simpl. lia. Qed.
End EffectCounts.

Ltac trivial_bound :=
  match goal with
  | |- (?c (snd (ret ?a ?tr)) <= ?c ?tr + ?k)%nat => exact (ret_bound c a k tr)
  | |- (?c (snd (raise ?e ?tr)) <= ?c ?tr + ?k)%nat => exact (raise_bound c e k tr)
  | |- _ => unfold ret, raise; simpl; lia
  end.

Lemma chat_calls_app (tr : list resp_event) (e : resp_event) :
  chat_calls (tr ++ [e]) = (chat_calls tr + match e with RChat _ => 1 | _ => 0 end)%nat.
Proof. unfold chat_calls. rewrite filter_app, length_app. destruct e; reflexivity. Qed.

Lemma tool_execs_app (tr : list resp_event) (e : resp_event) :
  tool_execs (tr ++ [e]) = (tool_execs tr + match e with RTool _ _ => 1 | _ => 0 end)%nat.
Proof. unfold tool_execs. rewrite filter_app, length_app. destruct e; reflexivity. Qed.

Section RespondCounts.
Variable run : string -> dict -> dict.
Variable chat : val -> option (list val) -> exn + LLMResponse.
Variable json_loads : string -> exn + val.
Variable tools_present : bool.
Variable execute : string -> val -> exn + string.
Variable tool_defs : list val.
Variable model_name : val.

Lemma run_m_chats (hook : string) (ctx : dict) tr :
  chat_calls (snd (Respond.run_m run hook ctx tr)) = chat_calls tr.
Proof. unfold Respond.run_m. simpl. rewrite chat_calls_app. simpl. lia. Qed.

Lemma tool_step_chats (messages : val) (t : tool_call) tr :
  (chat_calls (snd (Respond.tool_step run json_loads tools_present execute messages t tr))
   <= chat_calls tr + 0)%nat.
Proof.
  unfold Respond.tool_step.
  apply (bind_bound chat_calls _ _ 0 0);
    [intro; destruct (tc_arguments t); try apply (lift_bound chat_calls); trivial_bound|].
  intros args.
  apply (bind_bound chat_calls _ _ 0 0);
    [intro; rewrite run_m_chats; lia|].
  intros ctx.
  apply (bind_bound chat_calls _ _ 0 0).
  { intro tr'. destruct (ctx_abort ctx); [trivial_bound|].
    destruct tools_present; [|trivial_bound].
    destruct (execute (tc_name t) args); simpl; rewrite chat_calls_app; simpl; lia. }
  intros result.
  apply (bind_bound chat_calls _ _ 0 0);
    [intro; rewrite run_m_chats; lia|].
  intros _. apply (append_msg_bound chat_calls).
Qed.

Lemma tool_loop_chats (calls : list tool_call) (messages : val) tr :
  (chat_calls (snd (Respond.tool_loop run json_loads tools_present execute messages calls tr))
   <= chat_calls tr + 0)%nat.
Proof.
  revert messages tr. induction calls as [|t rest IH]; intros messages tr; simpl.
  - trivial_bound.
  - apply (bind_bound chat_calls _ _ 0 0); [apply tool_step_chats|].
    intros m' tr'. apply IH.
Qed.

Lemma rounds_chats (n : nat) (messages : val) (last : option LLMResponse) tr :
  (chat_calls (snd (Respond.rounds run chat json_loads tools_present execute tool_defs
                      model_name n messages last tr)) <= chat_calls tr + n)%nat.
Proof.
  revert messages last tr. induction n as [|n IH]; intros messages last tr; simpl.
  - destruct last; [trivial_bound | trivial_bound].
  - replace (S n) with (0 + (1 + (0 + (0 + (0 + n)))))%nat by lia.
    apply (bind_bound chat_calls); [intro; rewrite run_m_chats; lia|].
    intros ctx tr1. destruct (ctx_abort ctx); [trivial_bound|].
    revert tr1.
    apply (bind_bound chat_calls).
    { intro tr2. unfold Respond.chat_m. simpl. rewrite chat_calls_app. simpl. lia. }
    intros response.
    apply (bind_bound chat_calls); [intro; rewrite run_m_chats; lia|].
    intros _ tr3. destruct (negb (has_tool_calls response)); [trivial_bound|].
    revert tr3.
    apply (bind_bound chat_calls); [apply (append_msg_bound chat_calls)|].
    intros m1.
    apply (bind_bound chat_calls); [apply tool_loop_chats|].
    intros m2. apply IH.
Qed.
End RespondCounts.

(** X6: [respond] calls the LLM at most [max_rounds] = 10 times. *)
Theorem respond_at_most_ten_llm_calls
    (run : string -> dict -> dict) (chat : val -> option (list val) -> exn + LLMResponse)
    (json_loads : string -> exn + val) (tools_present : bool)
    (execute : string -> val -> exn + string) (tool_defs : list val) (model_name : val)
    (llm_present : bool) (soul : string) (message : val) (sender : string)
    (tr : list resp_event) :
  (chat_calls (snd (Respond.respond run chat json_loads tools_present execute tool_defs
                      model_name llm_present soul message sender tr))
   <= chat_calls tr + Respond.max_rounds)%nat.
Proof.
  unfold Respond.respond. destruct llm_present; simpl; [|unfold ret; simpl; lia].
  replace Respond.max_rounds with (0 + Respond.max_rounds)%nat by reflexivity.
  revert tr. apply (bind_bound chat_calls).
  { intro tr. unfold Respond.prelude.
    apply (bind_bound chat_calls _ _ 0 0); [intro; rewrite run_m_chats; lia|].
    intros ctx1.
    apply (bind_bound chat_calls _ _ 0 0); [intro; rewrite run_m_chats; lia|].
    intros ctx2. trivial_bound. }
  intros messages tr. unfold Respond.respond_catch.
  enough (H : (chat_calls (snd (Respond.respond_try run chat json_loads tools_present execute
                                  tool_defs model_name messages sender tr))
               <= chat_calls tr + Respond.max_rounds)%nat).
  { destruct (Respond.respond_try _ _ _ _ _ _ _ messages sender tr) as [[[m|m]|v] tr'];
      simpl in *; try rewrite chat_calls_app; simpl; lia. }
  unfold Respond.respond_try.
  replace Respond.max_rounds with (Respond.max_rounds + 0)%nat at 2 by lia.
  revert tr. apply (bind_bound chat_calls); [apply rounds_chats|].
  intros [v|response]; [trivial_bound|].
  replace 0%nat with (0 + 0)%nat by reflexivity.
  apply (bind_bound chat_calls); [intro; rewrite run_m_chats; lia|].
  intros ctx tr. destruct (dict_get_or ctx "text" _); try trivial_bound.
  destruct (is_blank _); trivial_bound.
Qed.

Section Appends.
Variable P : resp_event -> Prop.

Lemma ret_appends {A} (a : A) : appends P (ret a).
Proof. intro tr. exists []. rewrite app_nil_r. split; [reflexivity|constructor]. Qed.

Lemma raise_appends {A} (e : exn) : appends P (@raise A e).
Proof. intro tr. exists []. rewrite app_nil_r. split; [reflexivity|constructor]. Qed.

Lemma lift_appends {A} (r : exn + A) : appends P (Respond.lift r).
Proof. intro tr. exists []. rewrite app_nil_r. split; [reflexivity|constructor]. Qed.

Lemma bind_appends {A B} (m : M A) (f : A -> M B) :
  appends P m -> (forall a, appends P (f a)) -> appends P (bind m f).
Proof.
  intros Hm Hf tr. unfold bind. destruct (Hm tr) as [e1 [E1 F1]].
  destruct (m tr) as [[x|a] tr']; simpl in E1; subst tr'.
  - exists e1. split; [reflexivity|exact F1].
  - destruct (Hf a (tr ++ e1)) as [e2 [E2 F2]]. exists (e1 ++ e2).
    rewrite E2, app_assoc. split; [reflexivity|]. apply Forall_app; split; assumption.
Qed.

Lemma append_msg_appends (messages x : val) : appends P (append_msg messages x).
Proof. unfold append_msg. destruct messages; try apply raise_appends; apply ret_appends. Qed.
End Appends.

Section RespondAppends.
Variable run : string -> dict -> dict.
Variable chat : val -> option (list val) -> exn + LLMResponse.
Variable json_loads : string -> exn + val.
Variable tools_present : bool.
Variable execute : string -> val -> exn + string.
Variable tool_defs : list val.
Variable model_name : val.

Lemma run_m_appends hook ctx : appends not_tool (Respond.run_m run hook ctx).
Proof. intro tr. exists [RRun hook ctx]. split; [reflexivity|repeat constructor]. Qed.

Lemma chat_m_appends messages : appends not_tool (Respond.chat_m chat tool_defs messages).
Proof. intro tr. exists [RChat messages]. split; [reflexivity|repeat constructor]. Qed.

Hypothesis Hblocked :
  tools_present = false \/
  forall name args, ctx_abort (run "on_before_tool_exec" [("tool", VStr name); ("args", args)]) = true.

Lemma bind_run_m_appends {B} hook ctx (f : dict -> M B) :
  appends not_tool (f (run hook ctx)) ->
  appends not_tool (bind (Respond.run_m run hook ctx) f).
Proof.
  intros Hf tr. unfold bind, Respond.run_m.
  destruct (Hf (tr ++ [RRun hook ctx])) as [e [E F]]. exists (RRun hook ctx :: e).
  rewrite E, <- app_assoc. split; [reflexivity|constructor; [exact I|exact F]].
Qed.

Lemma tool_step_appends messages t :
  appends not_tool (Respond.tool_step run json_loads tools_present execute messages t).
Proof.
  unfold Respond.tool_step.
  apply bind_appends;
    [destruct (tc_arguments t); try apply lift_appends; apply ret_appends|].
  intros args. apply bind_run_m_appends.
  apply bind_appends; [|intros result; apply bind_appends;
                        [apply run_m_appends|intros _; apply append_msg_appends]].
  destruct Hblocked as [Ht|Ha].
  - destruct (ctx_abort _); [apply ret_appends|]. rewrite Ht. apply ret_appends.
  - rewrite Ha. apply ret_appends.
Qed.

Lemma tool_loop_appends calls messages :
  appends not_tool (Respond.tool_loop run json_loads tools_present execute messages calls).
Proof.
  revert messages. induction calls as [|t rest IH]; intros messages; simpl.
  - apply ret_appends.
  - apply bind_appends; [apply tool_step_appends|intros m'; apply IH].
Qed.

Lemma rounds_appends n messages last :
  appends not_tool (Respond.rounds run chat json_loads tools_present execute tool_defs
                      model_name n messages last).
Proof.
  revert messages last. induction n as [|n IH]; intros messages last; simpl.
  - destruct last; [apply ret_appends|apply raise_appends].
  - apply bind_appends; [apply run_m_appends|]. intros ctx.
    destruct (ctx_abort ctx); [apply ret_appends|].
    apply bind_appends; [apply chat_m_appends|]. intros response.
    apply bind_appends; [apply run_m_appends|]. intros _.
    destruct (negb (has_tool_calls response)); [apply ret_appends|].
    apply bind_appends; [apply append_msg_appends|]. intros m1.
    apply bind_appends; [apply tool_loop_appends|]. intros m2. apply IH.
Qed.

Lemma respond_appends llm_present soul message sender :
  appends not_tool (Respond.respond run chat json_loads tools_present execute tool_defs
                      model_name llm_present soul message sender).
Proof.
  unfold Respond.respond. destruct llm_present; simpl; [|apply ret_appends].
  apply bind_appends.
  { unfold Respond.prelude. apply bind_appends; [apply run_m_appends|]. intros ctx1.
    apply bind_appends; [apply run_m_appends|]. intros ctx2. apply ret_appends. }
  intros messages tr. unfold Respond.respond_catch.
  assert (Ht : appends not_tool (Respond.respond_try run chat json_loads tools_present execute
                                   tool_defs model_name messages sender)).
  { unfold Respond.respond_try. apply bind_appends; [apply rounds_appends|].
    intros [v|response]; [apply ret_appends|].
    apply bind_appends; [apply run_m_appends|]. intros ctx.
    destruct (dict_get_or ctx "text" _); try apply raise_appends.
    destruct (is_blank _); apply ret_appends. }
  destruct (Ht tr) as [e [E F]].
  destruct (Respond.respond_try _ _ _ _ _ _ _ messages sender tr) as [[[m|m]|v] tr'];
    simpl in E; subst tr'.
  - exists (e ++ [RRun "on_error" [("error", VExn (LLMError m)); ("hook", VStr "llm_call")]]).
    rewrite app_assoc. split; [reflexivity|]. apply Forall_app; split; [exact F|repeat constructor].
  - exists e. split; [reflexivity|exact F].
  - exists e. split; [reflexivity|exact F].
Qed.
End RespondAppends.

Section RespondReply.
Variable run : string -> dict -> dict.
Variable chat : val -> option (list val) -> exn + LLMResponse.
Variable json_loads : string -> exn + val.
Variable tools_present : bool.
Variable execute : string -> val -> exn + string.
Variable tool_defs : list val.
Variable model_name : val.
Hypothesis Hno : forall messages,
  ctx_abort (run "on_before_llm_call"
               [("messages", messages); ("model", model_name); ("tools", VList tool_defs)]) = false.

Lemma rounds_no_early_return n messages last tr w tr' :
  Respond.rounds run chat json_loads tools_present execute tool_defs model_name
    n messages last tr = (inr (inl w), tr') -> False.
Proof.
  revert messages last tr. induction n as [|n IH]; intros messages last tr; simpl.
  - destruct last; unfold ret, raise; intro H; discriminate H.
  - unfold bind at 1, Respond.run_m. rewrite Hno.
    unfold bind at 1, Respond.chat_m.
    destruct (chat _ _) as [e|response]; [intro H; discriminate H|].
    unfold bind at 1, Respond.run_m.
    destruct (negb (has_tool_calls response)); [unfold ret; intro H; discriminate H|].
    unfold bind at 1.
    destruct (append_msg _ _ _) as [[e|m1] tr1]; [intro H; discriminate H|].
    unfold bind at 1.
    destruct (Respond.tool_loop _ _ _ _ _ _ _) as [[e|m2] tr2]; [intro H; discriminate H|].
    apply IH.
Qed.
End RespondReply.

(** X8: when [on_before_llm_call] never aborts, every text
    [respond] returns is a string that is not blank (the error texts, the
    model's text, or the "(No response generated ...)" fallback). *)
Theorem respond_reply_not_blank
    (run : string -> dict -> dict) (chat : val -> option (list val) -> exn + LLMResponse)
    (json_loads : string -> exn + val) (tools_present : bool)
    (execute : string -> val -> exn + string) (tool_defs : list val) (model_name : val)
    (llm_present : bool) (soul : string) (message : val) (sender : string)
    (tr : list resp_event) (v : val) :
  (forall messages,
     ctx_abort (run "on_before_llm_call"
                  [("messages", messages); ("model", model_name); ("tools", VList tool_defs)]) = false) ->
  fst (Respond.respond run chat json_loads tools_present execute tool_defs model_name
         llm_present soul message sender tr) = inr v ->
  exists s, v = VStr s /\ is_blank s = false.
Proof.
  intros Hno. unfold Respond.respond.
  destruct llm_present; simpl.
  2: { intro H. injection H as <-. eexists; split; reflexivity. }
  unfold bind at 1.
  destruct (Respond.prelude run soul message sender tr) as [[e|messages] tr1];
    [simpl; intro H; discriminate H|].
  unfold Respond.respond_catch.
  destruct (Respond.respond_try run chat json_loads tools_present execute tool_defs
              model_name messages sender tr1) as [[[m|m]|w] tr2] eqn:Et; simpl.
  - intro H. injection H as <-. eexists; split; reflexivity.
  - intro H; discriminate H.
  - intro H. injection H as ->. unfold Respond.respond_try, bind at 1 in Et.
    destruct (Respond.rounds _ _ _ _ _ _ _ _ _ _ tr1) as [[e|[x|response]] tr3] eqn:Er;
      [discriminate Et| exfalso; exact (rounds_no_early_return _ _ _ _ _ _ _ Hno _ _ _ _ _ _ Er)|].
    unfold bind, Respond.run_m in Et.
    destruct (dict_get_or _ "text" _) as [| | |s| | |]; try discriminate Et.
    destruct (is_blank s) eqn:Eb; injection Et as <- _; eexists; split;
      try reflexivity; assumption.
Qed.

(** X7: when no tool plugin is present, or [on_before_tool_exec]
    aborts every tool call, [respond] only appends events to the trace
    and none of them executes a tool. *)
Theorem respond_tools_blocked
    (run : string -> dict -> dict) (chat : val -> option (list val) -> exn + LLMResponse)
    (json_loads : string -> exn + val) (tools_present : bool)
    (execute : string -> val -> exn + string) (tool_defs : list val) (model_name : val)
    (llm_present : bool) (soul : string) (message : val) (sender : string)
    (tr : list resp_event) :
  (tools_present = false \/
   forall name args, ctx_abort (run "on_before_tool_exec" [("tool", VStr name); ("args", args)]) = true) ->
  exists e, snd (Respond.respond run chat json_loads tools_present execute tool_defs model_name
                   llm_present soul message sender tr) = tr ++ e /\ Forall not_tool e.
Proof. intros Hb. exact (respond_appends run chat json_loads tools_present execute tool_defs model_name Hb llm_present soul message sender tr). Qed.

Lemma respond_tools_blocked_witness :
  exists e, snd (Respond.respond ex_block_tools ex_chat_tools ex_json true ex_exec [] (VStr "ppq")
                   true "soul" (VStr "hi") "alice" []) = [] ++ e /\ Forall not_tool e.
Proof.
  apply (respond_tools_blocked ex_block_tools ex_chat_tools ex_json true ex_exec [] (VStr "ppq")
           true "soul" (VStr "hi") "alice" []).
  right. intros name args. reflexivity.
Defined.

Lemma respond_reply_not_blank_witness :
  fst (Respond.respond ex_run ex_chat_blank ex_json true ex_exec [] (VStr "ppq")
         true "soul" (VStr "hi") "alice" [])
  = inr (VStr "(No response generated - model may have hit token limit)") /\
  exists s, VStr "(No response generated - model may have hit token limit)" = VStr s /\
            is_blank s = false.
Proof.
  assert (E : fst (Respond.respond ex_run ex_chat_blank ex_json true ex_exec [] (VStr "ppq")
                     true "soul" (VStr "hi") "alice" [])
              = inr (VStr "(No response generated - model may have hit token limit)"))
    by (vm_compute; reflexivity).
  split; [exact E|].
  apply (respond_reply_not_blank ex_run ex_chat_blank ex_json true ex_exec [] (VStr "ppq")
           true "soul" (VStr "hi") "alice" [] _); [intros m; reflexivity|exact E].
Defined.

Section CompactionMore.
  Import Compaction.
  Local Open Scope nat_scope.

Lemma walk_back_none (rl : list chat_msg) (r : nat) :
  r <= TARGET_RECENT_TOKENS -> walk_back rl r = None ->
  r + sum_tokens rl <= TARGET_RECENT_TOKENS.
Proof.
  revert r. induction rl as [|m rest IH]; intros r Hr Hw; simpl in *; [lia|].
  destruct (Nat.ltb TARGET_RECENT_TOKENS (r + msg_tokens m)) eqn:E; [discriminate|].
  apply Nat.ltb_ge in E.
  destruct (walk_back rest (r + msg_tokens m)) eqn:Ew; [discriminate|].
  specialize (IH _ E Ew). lia.
Qed.

Lemma sum_tokens_cons (m : chat_msg) (l : list chat_msg) :
  sum_tokens (m :: l) = msg_tokens m + sum_tokens l.
Proof. reflexivity. Qed.

Lemma walk_back_some (rl : list chat_msg) (r c : nat) :
  walk_back rl r = Some c ->
  TARGET_RECENT_TOKENS < r + sum_tokens (firstn (S c) rl).
Proof.
  revert r c. induction rl as [|m rest IH]; intros r c Hw; simpl in Hw; [discriminate|].
  destruct (Nat.ltb TARGET_RECENT_TOKENS (r + msg_tokens m)) eqn:E.
  - injection Hw as <-. apply Nat.ltb_lt in E. simpl. rewrite Nat.add_0_r. exact E.
  - destruct (walk_back rest (r + msg_tokens m)) as [c'|] eqn:Ew; [|discriminate].
    injection Hw as <-. specialize (IH _ _ Ew). change (firstn (S (S c')) (m :: rest)) with (m :: firstn (S c') rest).
    rewrite sum_tokens_cons. lia.
Qed.

Lemma sum_tokens_firstn_le (n : nat) (l : list chat_msg) :
  sum_tokens (firstn n l) <= sum_tokens l.
Proof.
  rewrite <- (firstn_skipn n l) at 2. rewrite sum_tokens_app. lia.
Qed.

Lemma skipn_cons_nth {A} (n : nat) (l : list A) :
  n < length l ->
  exists m, skipn n l = m :: skipn (S n) l /\ firstn (S n) l = firstn n l ++ [m].
Proof.
  revert l. induction n as [|n IH]; intros l Hn; destruct l as [|x l]; simpl in *; try lia.
  - exists x. split; reflexivity.
  - destruct (IH l ltac:(lia)) as [m [E1 E2]]. exists m. rewrite E1, E2. split; reflexivity.
Qed.

(** The two ways the backward walk ends. *)
Lemma split_index_cases (h : list chat_msg) :
  (split_index h = length h /\ sum_tokens h <= TARGET_RECENT_TOKENS) \/
  (exists c, c < length h /\ split_index h = length h - c /\
     TARGET_RECENT_TOKENS < sum_tokens (skipn (length h - S c) h)).
Proof.
  unfold split_index. destruct (walk_back (rev h) 0) as [c|] eqn:Ew.
  - right. exists c.
    destruct (walk_back_bound (rev h) 0 c ltac:(unfold TARGET_RECENT_TOKENS; lia) Ew)
      as [_ Hc].
    rewrite length_rev in Hc. split; [exact Hc|]. split; [reflexivity|].
    pose proof (walk_back_some (rev h) 0 c Ew) as Hs.
    rewrite firstn_rev, sum_tokens_rev in Hs. exact Hs.
  - left. split; [reflexivity|].
    pose proof (walk_back_none (rev h) 0 ltac:(unfold TARGET_RECENT_TOKENS; lia) Ew) as Hn.
    rewrite sum_tokens_rev in Hn. exact Hn.
Qed.
End CompactionMore.

(** X9: when [transform_history] compacts, the kept recent
    part is a suffix of the middle history within [TARGET_RECENT_TOKENS];
    if the whole middle history is over that target, adding the last
    summarized message would exceed it; otherwise the whole middle history
    is summarized and no recent message is kept. *)
Theorem transform_history_recent_maximal (summarize : list chat_msg -> string)
    (messages new : list chat_msg) :
  Compaction.transform_history summarize messages = Some new ->
  exists sys history cur old recent,
    Compaction.parts messages = (sys, history, cur) /\
    history = old ++ recent /\
    new = Compaction.opt_list sys ++ [Compaction.summary_msg (summarize old)] ++
          recent ++ Compaction.opt_list cur /\
    (Compaction.sum_tokens recent <= Compaction.TARGET_RECENT_TOKENS)%nat /\
    (((Compaction.TARGET_RECENT_TOKENS < Compaction.sum_tokens history)%nat /\
      exists old' m, old = old' ++ [m] /\
        (Compaction.TARGET_RECENT_TOKENS < Compaction.msg_tokens m + Compaction.sum_tokens recent)%nat)
     \/ ((Compaction.sum_tokens history <= Compaction.TARGET_RECENT_TOKENS)%nat /\ recent = [])).
Proof.
  unfold Compaction.transform_history.
  destruct (Nat.ltb (length messages) 3); [discriminate|].
  destruct (Compaction.parts messages) as [[sys history] cur] eqn:Ep.
  destruct history as [|h0 hs]; [discriminate|].
  destruct (Nat.leb (Compaction.estimate_tokens (h0 :: hs)) Compaction.MAX_TOKENS); [discriminate|].
  destruct (Nat.leb (Compaction.split_index (h0 :: hs)) 0) eqn:Es; [discriminate|].
  intro H. injection H as <-. apply Nat.leb_gt in Es.
  set (h := h0 :: hs) in *.
  exists sys, h, cur, (firstn (Compaction.split_index h) h), (skipn (Compaction.split_index h) h).
  split; [reflexivity|]. split; [symmetry; apply firstn_skipn|]. split; [reflexivity|].
  split; [apply recent_tokens_bound|].
  destruct (split_index_cases h) as [[Hs Hsum]|[c [Hc [Hs Hgt]]]].
  - right. split; [exact Hsum|]. rewrite Hs. apply skipn_all.
  - left. split.
    { pose proof (sum_tokens_app (firstn (length h - S c) h) (skipn (length h - S c) h)) as E.
      rewrite firstn_skipn in E. lia. }
    destruct (skipn_cons_nth (length h - S c) h ltac:(lia)) as [m [E1 E2]].
    replace (S (length h - S c)) with (Compaction.split_index h) in E1, E2 by lia.
    exists (firstn (length h - S c) h), m. split; [exact E2|].
    rewrite E1 in Hgt. simpl in Hgt. exact Hgt.
Qed.

(** X10: the message list [transform_history] leaves in the
    context is never longer than the one it received. *)
Theorem result_messages_not_longer (summarize : list chat_msg -> string)
    (messages : list chat_msg) :
  (length (Compaction.result_messages summarize messages) <= length messages)%nat.
Proof.
  unfold Compaction.result_messages.
  destruct (Compaction.transform_history summarize messages) as [new|] eqn:Et; [|lia].
  revert Et. unfold Compaction.transform_history.
  destruct (Nat.ltb (length messages) 3) eqn:El; [discriminate|].
  apply Nat.ltb_ge in El.
  destruct (Compaction.parts messages) as [[sys history] cur] eqn:Ep.
  destruct history as [|h0 hs]; [discriminate|].
  destruct (Nat.leb (Compaction.estimate_tokens (h0 :: hs)) Compaction.MAX_TOKENS); [discriminate|].
  destruct (Nat.leb (Compaction.split_index (h0 :: hs)) 0) eqn:Es; [discriminate|].
  intro H. injection H as <-. apply Nat.leb_gt in Es.
  rewrite <- (parts_decompose messages sys (h0 :: hs) cur El Ep).
  rewrite !length_app. cbn [length]. rewrite !length_app, length_skipn.
  destruct (recent_tokens_bound (h0 :: hs)) as [_ [Hle _]]. cbn [length] in *. lia.
Qed.

Lemma transform_history_recent_maximal_witness :
  Compaction.transform_history ex_summarize ex_tiny_messages =
    Some [{| cm_role := Some "system"; cm_content := "s" |};
          Compaction.summary_msg (ex_summarize (ex_tiny_history (4 * 4000 + 2)));
          {| cm_role := Some "user"; cm_content := "hi" |}] /\
  exists sys history cur old recent,
    Compaction.parts ex_tiny_messages = (sys, history, cur) /\
    history = old ++ recent /\
    [{| cm_role := Some "system"; cm_content := "s" |};
     Compaction.summary_msg (ex_summarize (ex_tiny_history (4 * 4000 + 2)));
     {| cm_role := Some "user"; cm_content := "hi" |}] =
      Compaction.opt_list sys ++ [Compaction.summary_msg (ex_summarize old)] ++
      recent ++ Compaction.opt_list cur /\
    (Compaction.sum_tokens recent <= Compaction.TARGET_RECENT_TOKENS)%nat /\
    (((Compaction.TARGET_RECENT_TOKENS < Compaction.sum_tokens history)%nat /\
      exists old' m, old = old' ++ [m] /\
        (Compaction.TARGET_RECENT_TOKENS < Compaction.msg_tokens m + Compaction.sum_tokens recent)%nat)
     \/ ((Compaction.sum_tokens history <= Compaction.TARGET_RECENT_TOKENS)%nat /\ recent = [])).
Proof.
  assert (E : Compaction.transform_history ex_summarize ex_tiny_messages =
    Some [{| cm_role := Some "system"; cm_content := "s" |};
          Compaction.summary_msg (ex_summarize (ex_tiny_history (4 * 4000 + 2)));
          {| cm_role := Some "user"; cm_content := "hi" |}]).
  { exact (@eq_refl _ (Some [{| cm_role := Some "system"; cm_content := "s" |};
          Compaction.summary_msg (ex_summarize (ex_tiny_history (4 * 4000 + 2)));
          {| cm_role := Some "user"; cm_content := "hi" |}]) <:
      Compaction.transform_history ex_summarize ex_tiny_messages =
      Some [{| cm_role := Some "system"; cm_content := "s" |};
          Compaction.summary_msg (ex_summarize (ex_tiny_history (4 * 4000 + 2)));
          {| cm_role := Some "user"; cm_content := "hi" |}]). }
  split; [exact E|].
  exact (transform_history_recent_maximal ex_summarize ex_tiny_messages _ E).
Defined.

Lemma find_app_single {A} (f : A -> bool) (l : list A) (x : A) :
  find f (l ++ [x]) = match find f l with Some y => Some y | None => if f x then Some x else None end.
Proof. induction l as [|a l IH]; simpl; [reflexivity|]. destruct (f a); [reflexivity|exact IH]. Qed.

Lemma find_none_of {A} (f : A -> bool) (l : list A) :
  (forall x, In x l -> f x = false) -> find f l = None.
Proof.
  induction l as [|a l IH]; intros H; simpl; [reflexivity|].
  rewrite (H a (or_introl eq_refl)). apply IH. intros x Hx. apply H. right. exact Hx.
Qed.

Lemma filter_shorter {A} (f : A -> bool) (l : list A) :
  (length (filter (fun x => negb (f x)) l) < length l)%nat <-> existsb f l = true.
Proof.
  induction l as [|a l IH]; simpl; [split; [lia|discriminate]|].
  pose proof (filter_length_le (fun x => negb (f x)) l).
  destruct (f a); simpl; [split; [reflexivity|lia]|].
  rewrite <- IH. lia.
Qed.

Lemma existsb_filter_negb {A} (f : A -> bool) (l : list A) :
  existsb f (filter (fun x => negb (f x)) l) = false.
Proof.
  induction l as [|a l IH]; simpl; [reflexivity|].
  destruct (f a) eqn:E; simpl; [exact IH|]. rewrite E. exact IH.
Qed.

Lemma ascii_upper_alphabet (c : ascii) : In c code_alphabet -> ascii_upper c = c.
Proof.
  intro H. vm_compute in H.
  repeat (destruct H as [<-|H]; [vm_compute; reflexivity|]). destruct H.
Qed.

Lemma str_upper_string_of_list (l : list ascii) :
  (forall c, In c l -> ascii_upper c = c) ->
  str_upper (string_of_list_ascii l) = string_of_list_ascii l.
Proof.
  induction l as [|c l IH]; intros H; simpl; [reflexivity|].
  rewrite (H c (or_introl eq_refl)), IH; [reflexivity|].
  intros x Hx. apply H. right. exact Hx.
Qed.

Lemma length_string_of_list (l : list ascii) :
  String.length (string_of_list_ascii l) = length l.
Proof. induction l as [|c l IH]; simpl; [reflexivity|]. rewrite IH. reflexivity. Qed.

Lemma code_alphabet_nth (i : nat) : In (nth i code_alphabet "A"%char) code_alphabet.
Proof.
  destruct (Nat.lt_ge_cases i (length code_alphabet)) as [Hi|Hi].
  - apply nth_In. exact Hi.
  - rewrite nth_overflow by exact Hi. vm_compute. left. reflexivity.
Qed.

Lemma code_alphabet_unambiguous (c : ascii) :
  In c code_alphabet -> ~ In c ["O"; "0"; "I"; "1"]%char.
Proof.
  intros H Hb. vm_compute in H.
  repeat (destruct H as [<-|H]; [vm_compute in Hb; intuition discriminate|]).
  destruct H.
Qed.

Lemma generate_code_upper (picks : list nat) : str_upper (generate_code picks) = generate_code picks.
Proof.
  unfold generate_code. apply str_upper_string_of_list. intros c Hc.
  apply in_map_iff in Hc. destruct Hc as [i [<- _]]. apply ascii_upper_alphabet, code_alphabet_nth.
Qed.

(** X11: [generate_code] returns one character per draw, each from
    the 32-character alphabet without O, 0, I and 1, and the code is
    unchanged by [upper()]. *)
Theorem generate_code_alphabet (picks : list nat) :
  String.length (generate_code picks) = length picks /\
  (forall c, In c (list_ascii_of_string (generate_code picks)) ->
     In c code_alphabet /\ ~ In c ["O"; "0"; "I"; "1"]%char) /\
  length code_alphabet = 32%nat /\
  str_upper (generate_code picks) = generate_code picks.
Proof.
  unfold generate_code.
  assert (Hin : forall c, In c (map (fun i => nth i code_alphabet "A"%char) picks) ->
                  In c code_alphabet).
  { intros c Hc. apply in_map_iff in Hc. destruct Hc as [i [<- _]]. apply code_alphabet_nth. }
  split; [rewrite length_string_of_list, length_map; reflexivity|].
  split.
  { intros c Hc. rewrite list_ascii_of_string_of_list_ascii in Hc.
    specialize (Hin c Hc). split; [exact Hin|]. apply code_alphabet_unambiguous. exact Hin. }
  split; [vm_compute; reflexivity|]. apply generate_code_upper.
Qed.

Lemma find_some_pred {A} (f : A -> bool) (l : list A) (x : A) :
  find f l = Some x -> f x = true /\ In x l.
Proof. intro H. split; [exact (proj2 (find_some f l H))|exact (proj1 (find_some f l H))]. Qed.

Lemma add_pending_found
    (dump : list AuthorizedUser -> list PendingRequest -> string)
    (now : Z) (code : string) (st : store) (fs : fs_state) (channel user_id name : string) :
  Storage.get_pending_for_user
    (m_store (Storage.add_pending dump now code st fs channel user_id name)) channel user_id =
  Some (m_ret (Storage.add_pending dump now code st fs channel user_id name)).
Proof.
  unfold Storage.add_pending.
  destruct (Storage.get_pending_for_user st channel user_id) as [req|] eqn:Eg; [exact Eg|].
  unfold Storage.saved, Storage.get_pending_for_user in *. simpl.
  rewrite find_app_single, Eg. simpl. rewrite !String.eqb_refl. reflexivity.
Qed.

(** X12: after [add_pending], [get_pending_for_user] finds the returned
    request for that channel and user; a second [add_pending] for the
    same user returns the same request and writes nothing. *)
Theorem add_pending_lookup
    (dump : list AuthorizedUser -> list PendingRequest -> string)
    (now : Z) (code : string) (st : store) (fs : fs_state) (channel user_id name : string) :
  let r := Storage.add_pending dump now code st fs channel user_id name in
  Storage.get_pending_for_user (m_store r) channel user_id = Some (m_ret r) /\
  p_channel (m_ret r) = channel /\ p_user_id (m_ret r) = user_id /\
  (forall now' code' fs' name',
     let r2 := Storage.add_pending dump now' code' (m_store r) fs' channel user_id name' in
     m_ret r2 = m_ret r /\ m_store r2 = m_store r /\ m_writes r2 = []).
Proof.
  cbv zeta.
  assert (Hfound : forall st' req,
            Storage.get_pending_for_user st' channel user_id = Some req ->
            p_channel req = channel /\ p_user_id req = user_id /\
            (forall now' code' fs' name',
               let r2 := Storage.add_pending dump now' code' st' fs' channel user_id name' in
               m_ret r2 = req /\ m_store r2 = st' /\ m_writes r2 = [])).
  { intros st' req Hg. destruct (find_some_pred _ _ _ Hg) as [Hp _].
    apply andb_true_iff in Hp. destruct Hp as [Hc Hu].
    apply String.eqb_eq in Hc, Hu. split; [exact Hc|]. split; [exact Hu|].
    intros now' code' fs' name'. cbv zeta. unfold Storage.add_pending. rewrite Hg.
    split; [reflexivity|split; reflexivity]. }
  pose proof (add_pending_found dump now code st fs channel user_id name) as Hg.
  split; [exact Hg|]. exact (Hfound _ _ Hg).
Qed.

(** X13: a request that [add_pending] creates with a generated code
    no other pending request holds is found by [get_pending_by_code] with
    that code typed in any letter case. *)
Theorem add_pending_code_lookup
    (dump : list AuthorizedUser -> list PendingRequest -> string)
    (now : Z) (picks : list nat) (st : store) (fs : fs_state) (channel user_id name : string) :
  Storage.get_pending_for_user st channel user_id = None ->
  Storage.get_pending_by_code st (generate_code picks) = None ->
  forall s, str_upper s = generate_code picks ->
  Storage.get_pending_by_code
    (m_store (Storage.add_pending dump now (generate_code picks) st fs channel user_id name)) s =
  Some (m_ret (Storage.add_pending dump now (generate_code picks) st fs channel user_id name)).
Proof.
  intros Hu Hc s Hs.
  pose proof (generate_code_upper picks) as Hup.
  unfold Storage.add_pending. rewrite Hu. unfold Storage.saved, Storage.get_pending_by_code in *.
  simpl. rewrite Hup in Hc. rewrite Hs, find_app_single, Hc. simpl.
  rewrite String.eqb_refl. reflexivity.
Qed.

Lemma add_pending_code_lookup_witness :
  Storage.get_pending_for_user ex_store0 "telegram" "999" = None /\
  Storage.get_pending_by_code ex_store0 (generate_code [0; 1; 2; 3; 4; 5; 6; 7]%nat) = None /\
  str_upper "abcdefgh" = generate_code [0; 1; 2; 3; 4; 5; 6; 7]%nat /\
  Storage.get_pending_by_code
    (m_store (Storage.add_pending ex_dump 5 (generate_code [0; 1; 2; 3; 4; 5; 6; 7]%nat)
                ex_store0 ex_fs0 "telegram" "999" "eve")) "abcdefgh" =
  Some (m_ret (Storage.add_pending ex_dump 5 (generate_code [0; 1; 2; 3; 4; 5; 6; 7]%nat)
                 ex_store0 ex_fs0 "telegram" "999" "eve")).
Proof.
  assert (H1 : Storage.get_pending_for_user ex_store0 "telegram" "999" = None) by reflexivity.
  assert (H2 : Storage.get_pending_by_code ex_store0 (generate_code [0; 1; 2; 3; 4; 5; 6; 7]%nat)
               = None) by reflexivity.
  assert (H3 : str_upper "abcdefgh" = generate_code [0; 1; 2; 3; 4; 5; 6; 7]%nat)
    by (vm_compute; reflexivity).
  split; [exact H1|]. split; [exact H2|]. split; [exact H3|].
  exact (add_pending_code_lookup ex_dump 5 _ ex_store0 ex_fs0 "telegram" "999" "eve" H1 H2 _ H3).
Defined.

(** X14: [approve] with an unknown code changes nothing and writes
    nothing; with a known code it appends exactly one authorized user (the
    first pending request with that code), removes every pending request
    with that code and saves. *)
Theorem approve_removes_code
    (dump : list AuthorizedUser -> list PendingRequest -> string)
    (now : Z) (st : store) (fs : fs_state) (code : string) :
  let r := Storage.approve dump now st fs code in
  match Storage.get_pending_by_code st code with
  | None => m_store r = st /\ m_fs r = fs /\ m_writes r = [] /\ m_ret r = None
  | Some req =>
      let user := {| a_channel := p_channel req; a_user_id := p_user_id req;
                     a_name := p_name req; a_approved_at := now |} in
      p_code req = str_upper code /\
      m_ret r = Some user /\
      st_authorized (m_store r) = st_authorized st ++ [user] /\
      Storage.get_pending_by_code (m_store r) code = None /\
      (forall p, In p (st_pending (m_store r)) <-> In p (st_pending st) /\ p_code p <> p_code req) /\
      m_writes r <> []
  end.
Proof.
  cbv zeta. unfold Storage.approve.
  destruct (Storage.get_pending_by_code st code) as [req|] eqn:Eg; [|repeat split].
  destruct (find_some_pred _ _ _ Eg) as [Hp _]. apply String.eqb_eq in Hp.
  unfold Storage.saved. simpl.
  split; [exact Hp|]. split; [reflexivity|]. split; [reflexivity|].
  split.
  { unfold Storage.get_pending_by_code. simpl. apply find_none_of.
    intros x Hx. apply filter_In in Hx. destruct Hx as [_ Hx].
    apply negb_true_iff in Hx. rewrite <- Hp. exact Hx. }
  split; [|discriminate].
  intros p. rewrite filter_In, negb_true_iff, String.eqb_neq. reflexivity.
Qed.

(** X15: [reject] with an unknown code changes nothing and writes
    nothing; with a known code it removes every pending request with that
    code, keeps the authorized users and saves. *)
Theorem reject_removes_code
    (dump : list AuthorizedUser -> list PendingRequest -> string)
    (now : Z) (st : store) (fs : fs_state) (code : string) :
  let r := Storage.reject dump now st fs code in
  match Storage.get_pending_by_code st code with
  | None => m_store r = st /\ m_fs r = fs /\ m_writes r = [] /\ m_ret r = false
  | Some req =>
      m_ret r = true /\
      st_authorized (m_store r) = st_authorized st /\
      Storage.get_pending_by_code (m_store r) code = None /\
      (forall p, In p (st_pending (m_store r)) <-> In p (st_pending st) /\ p_code p <> p_code req) /\
      m_writes r <> []
  end.
Proof.
  cbv zeta. unfold Storage.reject.
  destruct (Storage.get_pending_by_code st code) as [req|] eqn:Eg; [|repeat split].
  destruct (find_some_pred _ _ _ Eg) as [Hp _]. apply String.eqb_eq in Hp.
  unfold Storage.saved. simpl.
  split; [reflexivity|]. split; [reflexivity|].
  split.
  { unfold Storage.get_pending_by_code. simpl. apply find_none_of.
    intros x Hx. apply filter_In in Hx. destruct Hx as [_ Hx].
    apply negb_true_iff in Hx. rewrite <- Hp. exact Hx. }
  split; [|discriminate].
  intros p. rewrite filter_In, negb_true_iff, String.eqb_neq. reflexivity.
Qed.

(** X16: [revoke] returns whether the user was authorized, removes every
    entry of that user and nothing else, and writes the file exactly when
    it returns True. *)
Theorem revoke_spec
    (dump : list AuthorizedUser -> list PendingRequest -> string)
    (now : Z) (st : store) (fs : fs_state) (channel user_id : string) :
  let r := Storage.revoke dump now st fs channel user_id in
  m_ret r = existsb (Storage.user_matches channel user_id) (st_authorized st) /\
  existsb (Storage.user_matches channel user_id) (st_authorized (m_store r)) = false /\
  (forall u, In u (st_authorized (m_store r)) <->
             In u (st_authorized st) /\ Storage.user_matches channel user_id u = false) /\
  st_pending (m_store r) = st_pending st /\
  (m_writes r = [] <-> m_ret r = false) /\
  (m_ret r = false -> m_fs r = fs).
Proof.
  cbv zeta. unfold Storage.revoke.
  pose proof (filter_shorter (Storage.user_matches channel user_id) (st_authorized st)) as Hs.
  assert (Hin : forall u,
            In u (filter (fun u => negb (Storage.user_matches channel user_id u)) (st_authorized st)) <->
            In u (st_authorized st) /\ Storage.user_matches channel user_id u = false).
  { intros u. rewrite filter_In, negb_true_iff. reflexivity. }
  destruct (Nat.ltb _ _) eqn:El.
  - apply Nat.ltb_lt, Hs in El. unfold Storage.saved. simpl.
    split; [symmetry; exact El|]. split; [apply existsb_filter_negb|].
    split; [exact Hin|]. split; [reflexivity|]. split; [split; discriminate|discriminate].
  - assert (Ef : existsb (Storage.user_matches channel user_id) (st_authorized st) = false).
    { apply not_true_is_false. intro E. apply (proj2 Hs) in E. apply Nat.ltb_lt in E. congruence. }
    unfold Storage.unchanged. simpl.
    split; [symmetry; exact Ef|]. split; [apply existsb_filter_negb|].
    split; [exact Hin|]. split; [reflexivity|]. split; [split; reflexivity|reflexivity].
Qed.

Lemma existsb_find_some {A} (f : A -> bool) (l : list A) :
  existsb f l = true -> exists x, find f l = Some x.
Proof.
  intro H. destruct (find f l) as [x|] eqn:Ef; [exists x; reflexivity|].
  apply existsb_exists in H. destruct H as [x [Hx Hf]].
  rewrite (find_none f l Ef x Hx) in Hf. discriminate.
Qed.

(** X17: after [add_authorized] the user is authorized; if the user
    already was (after the reload), nothing changes and nothing is
    written, otherwise exactly one entry is appended, named [owner:<id>]
    when no name is given. *)
Theorem add_authorized_spec
    (dump : list AuthorizedUser -> list PendingRequest -> string)
    (load : string -> option (list AuthorizedUser * list PendingRequest))
    (now : Z) (st : store) (fs : fs_state) (channel user_id name : string) :
  let st1 := Storage.reload_if_changed load st fs in
  let r := Storage.add_authorized dump load now st fs channel user_id name in
  existsb (Storage.user_matches channel user_id) (st_authorized (m_store r)) = true /\
  Storage.user_matches channel user_id (m_ret r) = true /\
  (existsb (Storage.user_matches channel user_id) (st_authorized st1) = true ->
     m_store r = st1 /\ m_fs r = fs /\ m_writes r = [] /\ In (m_ret r) (st_authorized st1)) /\
  (existsb (Storage.user_matches channel user_id) (st_authorized st1) = false ->
     st_authorized (m_store r) = st_authorized st1 ++ [m_ret r] /\
     st_pending (m_store r) = st_pending st1 /\
     a_name (m_ret r) = (if String.eqb name "" then ("owner:" ++ user_id)%string else name) /\
     m_writes r <> []).
Proof.
  cbv zeta. unfold Storage.add_authorized, Storage.is_authorized.
  set (st1 := Storage.reload_if_changed load st fs).
  destruct (existsb (Storage.user_matches channel user_id) (st_authorized st1)) eqn:E.
  - destruct (existsb_find_some _ _ E) as [u Hu]. rewrite Hu.
    destruct (find_some_pred _ _ _ Hu) as [Hm Hin].
    unfold Storage.unchanged. simpl.
    split; [exact E|]. split; [exact Hm|].
    split; [intros _; repeat split; assumption|intro H; discriminate H].
  - unfold Storage.saved. simpl.
    assert (Hm : Storage.user_matches channel user_id
                   {| a_channel := channel; a_user_id := user_id;
                      a_name := if String.eqb name "" then ("owner:" ++ user_id)%string else name;
                      a_approved_at := now |} = true).
    { unfold Storage.user_matches. simpl. rewrite !String.eqb_refl. reflexivity. }
    split; [apply existsb_exists; eexists; split; [apply in_or_app; right; left; reflexivity|exact Hm]|].
    split; [exact Hm|].
    split; [intro H; discriminate H|]. intros _. repeat split. discriminate.
Qed.

(** X18: [_reload_if_changed] keeps the cache when the file is
    missing or not newer; a newer file replaces both lists, and a newer
    file that cannot be parsed empties them, so that [is_authorized]
    refuses everyone. *)
Theorem reload_if_changed_cases
    (load : string -> option (list AuthorizedUser * list PendingRequest))
    (st : store) (fs : fs_state) :
  (fs_file fs = None \/ (fs_mtime fs <= st_last_mtime st)%Z ->
     Storage.reload_if_changed load st fs = st) /\
  (forall txt, fs_file fs = Some txt -> (st_last_mtime st < fs_mtime fs)%Z ->
     (forall a p, load txt = Some (a, p) ->
        Storage.reload_if_changed load st fs =
          {| st_authorized := a; st_pending := p; st_last_mtime := fs_mtime fs |}) /\
     (load txt = None ->
        Storage.reload_if_changed load st fs =
          {| st_authorized := []; st_pending := []; st_last_mtime := fs_mtime fs |} /\
        forall channel user_id, snd (Storage.is_authorized load st fs channel user_id) = false)).
Proof.
  unfold Storage.reload_if_changed, Storage.load.
  split.
  - intros [H|H]; rewrite ?H; [reflexivity|].
    destruct (fs_file fs); [|reflexivity].
    replace (st_last_mtime st <? fs_mtime fs)%Z with false by (symmetry; apply Z.ltb_ge; exact H).
    reflexivity.
  - intros txt Hf Hlt. apply Z.ltb_lt in Hlt.
    split.
    + intros a p Hl. rewrite Hf, Hlt, Hl. reflexivity.
    + intros Hl.
      assert (E : Storage.reload_if_changed load st fs =
                  {| st_authorized := []; st_pending := []; st_last_mtime := fs_mtime fs |}).
      { unfold Storage.reload_if_changed, Storage.load. rewrite Hf, Hlt, Hl. reflexivity. }
      rewrite Hf, Hlt, Hl. split; [reflexivity|].
      intros channel user_id. unfold Storage.is_authorized. rewrite E. reflexivity.
Qed.

(** X19: [_save] does not update [_last_mtime], so the next check
    reloads the store's own file; when the YAML round-trips, the reload
    keeps both lists and records the file's time. *)
Theorem save_then_reload
    (dump : list AuthorizedUser -> list PendingRequest -> string)
    (load : string -> option (list AuthorizedUser * list PendingRequest))
    (now : Z) (st : store) :
  (st_last_mtime st < now)%Z ->
  load (dump (st_authorized st) (st_pending st)) = Some (st_authorized st, st_pending st) ->
  Storage.reload_if_changed load st (fst (Storage.save dump now st)) =
    {| st_authorized := st_authorized st; st_pending := st_pending st; st_last_mtime := now |}.
Proof.
  intros Hlt Hl. unfold Storage.reload_if_changed, Storage.save, Storage.load. simpl.
  apply Z.ltb_lt in Hlt. rewrite Hlt, Hl. reflexivity.
Qed.

Lemma save_then_reload_witness :
  (st_last_mtime {| st_authorized := []; st_pending := [ex_req]; st_last_mtime := 0 |} < 5)%Z /\
  ex_load_req (ex_dump [] [ex_req]) = Some ([], [ex_req]) /\
  Storage.reload_if_changed ex_load_req
    {| st_authorized := []; st_pending := [ex_req]; st_last_mtime := 0 |}
    (fst (Storage.save ex_dump 5 {| st_authorized := []; st_pending := [ex_req]; st_last_mtime := 0 |})) =
  {| st_authorized := []; st_pending := [ex_req]; st_last_mtime := 5 |}.
Proof.
  assert (H1 : (st_last_mtime {| st_authorized := []; st_pending := [ex_req]; st_last_mtime := 0 |} < 5)%Z)
    by (simpl; lia).
  assert (H2 : ex_load_req (ex_dump [] [ex_req]) = Some ([], [ex_req])) by (vm_compute; reflexivity).
  split; [exact H1|]. split; [exact H2|].
  exact (save_then_reload ex_dump ex_load_req 5 _ H1 H2).
Defined.

Lemma ctx_abort_set_true (ctx : dict) : ctx_abort (dict_set ctx "abort" (VBool true)) = true.
Proof.
  unfold ctx_abort, dict_get_or.
  assert (H : dict_get (dict_set ctx "abort" (VBool true)) "abort" = Some (VBool true)).
  { induction ctx as [|[k v] ctx IH]; [reflexivity|].
    cbn -[String.eqb]. destruct (String.eqb "abort" k) eqn:E; cbn -[String.eqb];
      rewrite ?E; [reflexivity|exact IH]. }
  rewrite H. reflexivity.
Qed.

(** X20: [on_message_received] either passes the context through
    (nothing sent, nothing written), or the sender is not authorized: the
    context gets abort = True, a pending request exists for the sender,
    and, with a communication plugin, exactly one pairing message with
    that request's code is sent to the sender's chat. *)
Theorem pairing_gate
    (dump : list AuthorizedUser -> list PendingRequest -> string)
    (load : string -> option (list AuthorizedUser * list PendingRequest))
    (now : Z) (code : string) (pl : Pairing.plugin) (fs : fs_state) (ctx : dict) :
  let res := Pairing.on_message_received dump load now code pl fs ctx in
  (Pairing.pr_ctx res = ctx /\ Pairing.pr_sent res = [] /\ Pairing.pr_writes res = [] /\
   Pairing.pr_fs res = fs) \/
  (exists st st' req,
     let ch := py_str (dict_get_or ctx "channel_type" (VStr "")) in
     let uid := py_str (dict_get_or ctx "sender_id" (VStr "")) in
     Pairing.pp_storage pl = Some st /\ Pairing.pp_enabled pl = true /\
     uid <> "" /\
     snd (Storage.is_authorized load st fs ch uid) = false /\
     Pairing.pr_ctx res = dict_set ctx "abort" (VBool true) /\
     ctx_abort (Pairing.pr_ctx res) = true /\
     Pairing.pr_storage res = Some st' /\
     Storage.get_pending_for_user st' ch uid = Some req /\
     Pairing.pr_sent res =
       (if Pairing.pp_comm pl then
          [{| out_channel_type := ch;
              out_channel_id := py_str (dict_get_or ctx "channel_id" (VStr ""));
              out_content := VStr (Pairing.pairing_text ch uid (p_code req));
              out_reply_to := None |}]
        else [])).
Proof.
  cbv zeta. unfold Pairing.on_message_received.
  destruct (Pairing.pp_storage pl) as [st|] eqn:Es; [|left; repeat split].
  destruct (Pairing.pp_enabled pl) eqn:En; [|left; repeat split]. simpl.
  destruct (negb (truthy (dict_get_or ctx "channel_type" (VStr ""))) ||
            String.eqb (py_str (dict_get_or ctx "sender_id" (VStr ""))) "") eqn:Ea;
    [left; repeat split|].
  apply orb_false_iff in Ea. destruct Ea as [_ Eu].
  destruct (match dict_get_or ctx "channel_type" (VStr "") with
            | VStr s => existsb (String.eqb s) (Pairing.pp_skip_channels pl)
            | _ => false end); [left; repeat split|].
  set (ch := py_str (dict_get_or ctx "channel_type" (VStr ""))) in *.
  set (uid := py_str (dict_get_or ctx "sender_id" (VStr ""))) in *.
  destruct (existsb (Storage.user_matches ch uid) (st_authorized (Storage.reload_if_changed load st fs)))
    eqn:Eauth; [left; repeat split|].
  right.
  set (r := Storage.add_pending dump now code (Storage.reload_if_changed load st fs) fs ch uid
              (py_str (dict_get_or ctx "sender" (VStr "unknown")))).
  exists st, (m_store r), (m_ret r).
  split; [reflexivity|]. split; [reflexivity|].
  split; [apply String.eqb_neq; exact Eu|].
  split; [unfold Storage.is_authorized; exact Eauth|].
  split; [reflexivity|]. split; [apply ctx_abort_set_true|].
  split; [reflexivity|]. split; [apply add_pending_found|].
  reflexivity.
Qed.

Lemma reload_if_changed_idem
    (load : string -> option (list AuthorizedUser * list PendingRequest))
    (st : store) (fs : fs_state) :
  Storage.reload_if_changed load (Storage.reload_if_changed load st fs) fs =
  Storage.reload_if_changed load st fs.
Proof.
  unfold Storage.reload_if_changed at 2 3.
  destruct (fs_file fs) as [txt|] eqn:Ef; [|unfold Storage.reload_if_changed; rewrite Ef; reflexivity].
  destruct (st_last_mtime st <? fs_mtime fs)%Z eqn:El.
  - unfold Storage.reload_if_changed, Storage.load. rewrite Ef.
    destruct (load txt) as [[a p]|]; simpl; rewrite Z.ltb_irrefl; reflexivity.
  - unfold Storage.reload_if_changed. rewrite Ef, El. reflexivity.
Qed.

Lemma reload_if_changed_stable
    (load : string -> option (list AuthorizedUser * list PendingRequest))
    (st : store) (fs : fs_state) :
  (forall txt, fs_file fs = Some txt -> (st_last_mtime st < fs_mtime fs)%Z ->
     load txt = Some (st_authorized st, st_pending st)) ->
  st_authorized (Storage.reload_if_changed load st fs) = st_authorized st /\
  st_pending (Storage.reload_if_changed load st fs) = st_pending st.
Proof.
  intros H. unfold Storage.reload_if_changed, Storage.load.
  destruct (fs_file fs) as [txt|] eqn:Ef; [|split; reflexivity].
  destruct (st_last_mtime st <? fs_mtime fs)%Z eqn:El; [|split; reflexivity].
  apply Z.ltb_lt in El. rewrite (H txt eq_refl El). split; reflexivity.
Qed.

Lemma add_pending_authorized
    (dump : list AuthorizedUser -> list PendingRequest -> string)
    (now : Z) (code : string) (st : store) (fs : fs_state) (channel user_id name : string) :
  st_authorized (m_store (Storage.add_pending dump now code st fs channel user_id name)) =
  st_authorized st.
Proof.
  unfold Storage.add_pending. destruct (Storage.get_pending_for_user st channel user_id); reflexivity.
Qed.

Lemma get_pending_for_user_same_pending (st st' : store) (channel user_id : string) :
  st_pending st' = st_pending st ->
  Storage.get_pending_for_user st' channel user_id = Storage.get_pending_for_user st channel user_id.
Proof. intro H. unfold Storage.get_pending_for_user. rewrite H. reflexivity. Qed.

(** X21: when the same message is handled again after the hook
    ran once (the file it left reading back as the stored lists), the
    same messages are sent again, with the same pairing code, and nothing
    is written. *)
Theorem pairing_retry_same_code
    (dump : list AuthorizedUser -> list PendingRequest -> string)
    (load : string -> option (list AuthorizedUser * list PendingRequest))
    (now1 now2 : Z) (code1 code2 : string) (pl : Pairing.plugin) (fs : fs_state) (ctx : dict) :
  let r1 := Pairing.on_message_received dump load now1 code1 pl fs ctx in
  (forall st' txt, Pairing.pr_storage r1 = Some st' -> fs_file (Pairing.pr_fs r1) = Some txt ->
     (st_last_mtime st' < fs_mtime (Pairing.pr_fs r1))%Z ->
     load txt = Some (st_authorized st', st_pending st')) ->
  let pl2 := {| Pairing.pp_enabled := Pairing.pp_enabled pl;
                Pairing.pp_skip_channels := Pairing.pp_skip_channels pl;
                Pairing.pp_storage := Pairing.pr_storage r1;
                Pairing.pp_comm := Pairing.pp_comm pl |} in
  let r2 := Pairing.on_message_received dump load now2 code2 pl2 (Pairing.pr_fs r1) ctx in
  Pairing.pr_sent r2 = Pairing.pr_sent r1 /\ Pairing.pr_writes r2 = [] /\
  Pairing.pr_ctx r2 = Pairing.pr_ctx r1.
Proof.
  cbv zeta. intros H.
  unfold Pairing.on_message_received in *.
  destruct (Pairing.pp_storage pl) as [st|] eqn:Es; [|simpl; repeat split].
  simpl in H |- *.
  destruct (Pairing.pp_enabled pl) eqn:En; [|simpl; repeat split].
  simpl in H |- *.
  destruct (negb (truthy (dict_get_or ctx "channel_type" (VStr ""))) ||
            String.eqb (py_str (dict_get_or ctx "sender_id" (VStr ""))) "") eqn:Ea;
    [simpl; repeat split|].
  destruct (match dict_get_or ctx "channel_type" (VStr "") with
            | VStr s => existsb (String.eqb s) (Pairing.pp_skip_channels pl)
            | _ => false end) eqn:Ek; [simpl; repeat split|].
  set (ch := py_str (dict_get_or ctx "channel_type" (VStr ""))) in *.
  set (uid := py_str (dict_get_or ctx "sender_id" (VStr ""))) in *.
  set (st1 := Storage.reload_if_changed load st fs) in *.
  destruct (existsb (Storage.user_matches ch uid) (st_authorized st1)) eqn:Eauth.
  - assert (Hid : Storage.reload_if_changed load st1 fs = st1)
      by (unfold st1; apply reload_if_changed_idem).
    simpl. rewrite Hid, Eauth. repeat split.
  - set (a1 := Storage.add_pending dump now1 code1 st1 fs ch uid
                 (py_str (dict_get_or ctx "sender" (VStr "unknown")))) in *.
    simpl in H |- *.
    destruct (reload_if_changed_stable load (m_store a1) (m_fs a1)
                (fun txt Hf Hlt => H (m_store a1) txt eq_refl Hf Hlt)) as [Hra Hrp].
    assert (Hau : st_authorized (m_store a1) = st_authorized st1)
      by (unfold a1; apply add_pending_authorized).
    rewrite Hra, Hau, Eauth.
    assert (Hg : Storage.get_pending_for_user
                   (Storage.reload_if_changed load (m_store a1) (m_fs a1)) ch uid = Some (m_ret a1)).
    { rewrite (get_pending_for_user_same_pending _ _ _ _ Hrp). apply add_pending_found. }
    assert (Hadd : forall name,
              Storage.add_pending dump now2 code2
                (Storage.reload_if_changed load (m_store a1) (m_fs a1)) (m_fs a1) ch uid name =
              Storage.unchanged (Storage.reload_if_changed load (m_store a1) (m_fs a1))
                (m_fs a1) (m_ret a1)).
    { intros name. unfold Storage.add_pending. rewrite Hg. reflexivity. }
    rewrite !Hadd. simpl. repeat split.
Qed.

Lemma pairing_retry_same_code_witness :
  let r1 := Pairing.on_message_received ex_dump ex_load_req 5 "ABCDEFGH" ex_pairing ex_fs0
              ex_stranger_ctx in
  let pl2 := {| Pairing.pp_enabled := Pairing.pp_enabled ex_pairing;
                Pairing.pp_skip_channels := Pairing.pp_skip_channels ex_pairing;
                Pairing.pp_storage := Pairing.pr_storage r1;
                Pairing.pp_comm := Pairing.pp_comm ex_pairing |} in
  let r2 := Pairing.on_message_received ex_dump ex_load_req 9 "ZZZZZZZZ" pl2
              (Pairing.pr_fs r1) ex_stranger_ctx in
  Pairing.pr_sent r1 <> [] /\
  Pairing.pr_sent r2 = Pairing.pr_sent r1 /\ Pairing.pr_writes r2 = [] /\
  Pairing.pr_ctx r2 = Pairing.pr_ctx r1.
Proof.
  cbv zeta. split; [vm_compute; discriminate|].
  apply (pairing_retry_same_code ex_dump ex_load_req 5 9 "ABCDEFGH" "ZZZZZZZZ" ex_pairing ex_fs0
           ex_stranger_ctx).
  intros st' txt Hs Hf _. vm_compute in Hs. injection Hs as <-.
  vm_compute in Hf. injection Hf as <-. vm_compute. reflexivity.
Defined.
